(** * CSV converters: the [parseCSV] routine of [csv_to_html/script.js] and
      [csv_to_wpblock/script.js]

    A shallow embedding of the hand-written CSV scanner shared by the two
    converters, and the properties its specification states about it; then
    the two table builders, [createTableFromData] and [createWPTableMarkup]
    with [escapeHTML], over a small model of the document tree.

    JavaScript strings are sequences of UTF-16 code units; a code unit is a
    number [N] here and a string a [list] of them.  The scanner's mutable
    locals ([rows], [currentRow], [currentField], [insideQuotes]) become a
    record that is threaded through the loop. *)

From Stdlib Require Import List NArith Bool Arith Lia String Ascii.
Import ListNotations.

(* ================================================================= *)
(** ** JavaScript strings *)

Module JS.

(** A UTF-16 code unit. *)
Definition char : Type := N.

Definition jsstring : Type := list char.

(** The code units the scanner compares against. *)
Definition QUOTE : char := 34%N.   (* double quote *)
Definition COMMA : char := 44%N.   (* comma *)
Definition LF    : char := 10%N.   (* line feed *)
Definition CR    : char := 13%N.   (* carriage return *)
Definition SPACE : char := 32%N.   (* space *)

(** A string literal of ASCII characters, to write examples legibly. *)
Definition lit (s : string) : jsstring :=
  map N_of_ascii (list_ascii_of_string s).

(** [s === ''] *)
Definition is_empty (s : jsstring) : bool :=
  match s with [] => true | _ :: _ => false end.

(** What [String.prototype.trim] strips: ECMAScript's WhiteSpace and
    LineTerminator code points (TAB, LF, VT, FF, CR, SP, NBSP, the Zs
    category, LS, PS and the byte order mark). *)
Definition is_white (c : char) : bool :=
  ((9 <=? c) && (c <=? 13) || (c =? 32) || (c =? 160) || (c =? 5760)
   || (8192 <=? c) && (c <=? 8202) || (c =? 8232) || (c =? 8233)
   || (c =? 8239) || (c =? 8287) || (c =? 12288) || (c =? 65279))%N.

Fixpoint trimStart (s : jsstring) : jsstring :=
  match s with
  | [] => []
  | c :: tl => if is_white c then trimStart tl else s
  end.

Definition trimEnd (s : jsstring) : jsstring :=
  rev (trimStart (rev s)).

(** [s.trim()] *)
Definition trim (s : jsstring) : jsstring :=
  trimEnd (trimStart s).

End JS.

Import JS.

(* ================================================================= *)
(** ** Data model *)

Definition Cell : Type := jsstring.
Definition Row : Type := list Cell.
Definition Table : Type := list Row.

(** The locals of one [parseCSV] call. *)
Record ParserState : Type := mkState {
  rows : Table;
  currentRow : Row;
  currentField : jsstring;
  insideQuotes : bool
}.

(** The locals as initialised before the loop. *)
Definition initialState : ParserState :=
  {| rows := []; currentRow := []; currentField := []; insideQuotes := false |}.

(** [row.some(cell => cell !== '')] *)
Definition hasContent (row : Row) : bool :=
  existsb (fun cell => negb (is_empty cell)) row.

(* ================================================================= *)
(** ** The document tree *)

(** The part of the DOM the converters use: elements created with
    [document.createElement], their [className], [textContent],
    [appendChild], and the HTML they serialize to ([innerHTML],
    [outerHTML]), as the DOM and HTML standards define them. *)
Module DOM.

(** The elements the two files create in their table builders. *)
Inductive Tag : Type := DIV | TABLE | THEAD | TBODY | TR | TH | TD.

Definition tagName (t : Tag) : jsstring :=
  match t with
  | DIV => lit "div"
  | TABLE => lit "table"
  | THEAD => lit "thead"
  | TBODY => lit "tbody"
  | TR => lit "tr"
  | TH => lit "th"
  | TD => lit "td"
  end.

Definition tag_eqb (a b : Tag) : bool :=
  match a, b with
  | DIV, DIV | TABLE, TABLE | THEAD, THEAD | TBODY, TBODY
  | TR, TR | TH, TH | TD, TD => true
  | _, _ => false
  end.

(** An element with its [class] attribute, if set, and its children in
    order; or a text node. *)
#[warnings="-register-all"]
Inductive Node : Type :=
| Element (tag : Tag) (className : option jsstring) (children : list Node)
| Text (data : jsstring).

(** [document.createElement(tag)] *)
Definition createElement (tag : Tag) : Node := Element tag None [].

(** [el.className = c] *)
Definition setClassName (c : jsstring) (el : Node) : Node :=
  match el with
  | Element t _ ch => Element t (Some c) ch
  | Text d => Text d
  end.

(** [parent.appendChild(child)], for a child that is in no tree yet. *)
Definition appendChild (child parent : Node) : Node :=
  match parent with
  | Element t c ch => Element t c (ch ++ [child])
  | Text d => Text d
  end.

(** [el.textContent = text]: the children are replaced by one text node, or
    by none when the text is empty. *)
Definition setTextContent (text : jsstring) (el : Node) : Node :=
  match el with
  | Element t c _ => Element t c (if is_empty text then [] else [Text text])
  | Text _ => Text text
  end.

Definition childNodes (n : Node) : list Node :=
  match n with
  | Element _ _ ch => ch
  | Text _ => []
  end.

Definition hasTag (t : Tag) (n : Node) : bool :=
  match n with
  | Element t' _ _ => tag_eqb t t'
  | Text _ => false
  end.

(** Reading [n.textContent]: the text of the descendants, in order. *)
Fixpoint textContent (n : Node) : jsstring :=
  match n with
  | Element _ _ ch => List.concat (map textContent ch)
  | Text d => d
  end.

Definition AMP : char := 38%N.    (* ampersand *)
Definition LT : char := 60%N.     (* less-than sign *)
Definition GT : char := 62%N.     (* greater-than sign *)
Definition NBSP : char := 160%N.  (* no-break space *)

(** "Escaping a string" of the HTML fragment serialization algorithm, one
    code unit at a time, as the HTML Standard has it now (earlier editions
    left the two angle brackets alone in attribute values). *)
Definition escapeUnit (attributeMode : bool) (c : char) : jsstring :=
  if (c =? AMP)%N then lit "&amp;"
  else if (c =? NBSP)%N then lit "&nbsp;"
  else if (c =? LT)%N then lit "&lt;"
  else if (c =? GT)%N then lit "&gt;"
  else if attributeMode && (c =? QUOTE)%N then lit "&quot;"
  else [c].

Definition escapeString (attributeMode : bool) (s : jsstring) : jsstring :=
  flat_map (escapeUnit attributeMode) s.

(** [n.outerHTML]: start tag with the class attribute if there is one,
    children, end tag; a text node gives its escaped data. *)
Fixpoint outerHTML (n : Node) : jsstring :=
  match n with
  | Element t c ch =>
      lit "<" ++ tagName t
      ++ match c with
         | Some v => lit " class=" ++ [QUOTE] ++ escapeString true v ++ [QUOTE]
         | None => []
         end
      ++ lit ">" ++ List.concat (map outerHTML ch)
      ++ lit "</" ++ tagName t ++ lit ">"
  | Text d => escapeString false d
  end.

(** [n.innerHTML] *)
Definition innerHTML (n : Node) : jsstring :=
  List.concat (map outerHTML (childNodes n)).

End DOM.

Import DOM.

(* ================================================================= *)
(** ** [csv_to_html/script.js] *)

Module CsvToHtml.

(** [currentField += c] *)
Definition append (c : char) (st : ParserState) : ParserState :=
  {| rows := rows st;
     currentRow := currentRow st;
     currentField := currentField st ++ [c];
     insideQuotes := insideQuotes st |}.

(** [insideQuotes = !insideQuotes] *)
Definition toggle (st : ParserState) : ParserState :=
  {| rows := rows st;
     currentRow := currentRow st;
     currentField := currentField st;
     insideQuotes := negb (insideQuotes st) |}.

(** [currentRow.push(currentField.trim()); currentField = ''] *)
Definition endField (st : ParserState) : ParserState :=
  {| rows := rows st;
     currentRow := currentRow st ++ [trim (currentField st)];
     currentField := [];
     insideQuotes := insideQuotes st |}.

(** The guard [currentField || currentRow.length > 0]. *)
Definition pending (st : ParserState) : bool :=
  negb (is_empty (currentField st)) || (0 <? List.length (currentRow st)).

(** The guarded block at a line terminator: push the field, push the row,
    reset both. *)
Definition endRow (st : ParserState) : ParserState :=
  if pending st then
    {| rows := rows st ++ [currentRow st ++ [trim (currentField st)]];
       currentRow := [];
       currentField := [];
       insideQuotes := insideQuotes st |}
  else st.

(** One iteration of the loop body on [char = csvText[i]] and
    [nextChar = csvText[i + 1]] ([None] is [undefined]).  The boolean says
    whether the body executed its extra [i++]. *)
Definition loopBody (c : char) (nextChar : option char) (st : ParserState)
  : ParserState * bool :=
  if (c =? QUOTE)%N then
    match nextChar with
    | Some n =>
        if insideQuotes st && (n =? QUOTE)%N
        then (append QUOTE st, true)
        else (toggle st, false)
    | None => (toggle st, false)
    end
  else if (c =? COMMA)%N && negb (insideQuotes st) then
    (endField st, false)
  else if ((c =? LF)%N || (c =? CR)%N) && negb (insideQuotes st) then
    match nextChar with
    | Some n => (endRow st, (c =? CR)%N && (n =? LF)%N)
    | None => (endRow st, false)
    end
  else (append c st, false).

(** The [for] loop, index by index.  [fuel] bounds the number of
    iterations; [None] means the bound was reached before [i] left the
    string. *)
Fixpoint forLoop (fuel : nat) (csvText : jsstring) (i : nat)
    (st : ParserState) : option ParserState :=
  match nth_error csvText i with
  | None => Some st
  | Some c =>
      match fuel with
      | O => None
      | S fuel' =>
          let (st', skip) := loopBody c (nth_error csvText (i + 1)) st in
          forLoop fuel' csvText (if skip then i + 2 else i + 1) st'
      end
  end.

(** The same loop as a recursion on the part of the string not read yet. *)
Fixpoint scan (rest : jsstring) (st : ParserState) : ParserState :=
  match rest with
  | [] => st
  | c :: tl =>
      let (st', skip) := loopBody c (hd_error tl) st in
      match tl with
      | [] => scan tl st'
      | _ :: tl' => if skip then scan tl' st' else scan tl st'
      end
  end.

(** "Handle last field/row": the rows after the block that follows the
    loop. *)
Definition lastRow (st : ParserState) : Table :=
  if pending st
  then rows st ++ [currentRow st ++ [trim (currentField st)]]
  else rows st.

(** [rows.filter(row => row.some(cell => cell !== ''))] *)
Definition dropBlank (t : Table) : Table := filter hasContent t.

Definition parseCSV_fuel (fuel : nat) (csvText : jsstring) : option Table :=
  match forLoop fuel csvText 0 initialState with
  | Some st => Some (dropBlank (lastRow st))
  | None => None
  end.

Definition parseCSV (csvText : jsstring) : Table :=
  dropBlank (lastRow (scan csvText initialState)).

(** The [options] argument of [createTableFromData]; [None] is a property
    left [undefined], which takes its default. *)
Record TableOptions : Type := mkTableOptions {
  hasHeader : option bool;
  className : option jsstring
}.

(** [tr] with one cell element per cell of the row: the [forEach] that
    creates a cell, sets its [textContent] and appends it. *)
Definition rowElement (cellTag : Tag) (row : Row) : Node :=
  fold_left
    (fun tr cellText =>
       appendChild (setTextContent cellText (createElement cellTag)) tr)
    row (createElement TR).

Definition createTableFromData (data : Table) (options : TableOptions)
  : option Node :=
  let hasHeader' :=
    match hasHeader options with Some b => b | None => true end in
  let className' :=
    match className options with Some c => c | None => lit "csv-table" end in
  if (List.length data =? 0) then None
  else
    let table := setClassName className' (createElement TABLE) in
    let table :=
      if hasHeader' && (0 <? List.length data) then
        let headerRow := rowElement TH (nth 0 data []) in
        let thead := appendChild headerRow (createElement THEAD) in
        appendChild thead table
      else table in
    let startIndex := if hasHeader' then 1 else 0 in
    let tbody :=
      fold_left (fun tbody row => appendChild (rowElement TD row) tbody)
                (skipn startIndex data) (createElement TBODY) in
    Some (appendChild tbody table).

End CsvToHtml.

(* ================================================================= *)
(** ** [csv_to_wpblock/script.js] *)

Module CsvToWpblock.

(** The body of this file's own [for] loop, with the branches in the
    order the file has them. *)
Definition loopBody (c : char) (nextChar : option char) (st : ParserState)
  : ParserState * bool :=
  if (c =? QUOTE)%N then
    if insideQuotes st
       && match nextChar with Some n => (n =? QUOTE)%N | None => false end
    then
      ({| rows := rows st;
          currentRow := currentRow st;
          currentField := currentField st ++ [QUOTE];
          insideQuotes := insideQuotes st |}, true)
    else
      ({| rows := rows st;
          currentRow := currentRow st;
          currentField := currentField st;
          insideQuotes := negb (insideQuotes st) |}, false)
  else if (c =? COMMA)%N && negb (insideQuotes st) then
    ({| rows := rows st;
        currentRow := currentRow st ++ [trim (currentField st)];
        currentField := [];
        insideQuotes := insideQuotes st |}, false)
  else if ((c =? LF)%N || (c =? CR)%N) && negb (insideQuotes st) then
    let skip :=
      (c =? CR)%N
      && match nextChar with Some n => (n =? LF)%N | None => false end in
    if negb (is_empty (currentField st))
       || (0 <? List.length (currentRow st))
    then
      ({| rows := rows st ++ [currentRow st ++ [trim (currentField st)]];
          currentRow := [];
          currentField := [];
          insideQuotes := insideQuotes st |}, skip)
    else (st, skip)
  else
    ({| rows := rows st;
        currentRow := currentRow st;
        currentField := currentField st ++ [c];
        insideQuotes := insideQuotes st |}, false).

Fixpoint scan (rest : jsstring) (st : ParserState) : ParserState :=
  match rest with
  | [] => st
  | c :: tl =>
      let (st', skip) := loopBody c (hd_error tl) st in
      match tl with
      | [] => scan tl st'
      | _ :: tl' => if skip then scan tl' st' else scan tl st'
      end
  end.

Definition parseCSV (csvText : jsstring) : Table :=
  let st := scan csvText initialState in
  let rows' :=
    if negb (is_empty (currentField st))
       || (0 <? List.length (currentRow st))
    then rows st ++ [currentRow st ++ [trim (currentField st)]]
    else rows st in
  filter (fun row => existsb (fun cell => negb (is_empty cell)) row) rows'.

(** [div.textContent = text; return div.innerHTML] *)
Definition escapeHTML (text : jsstring) : jsstring :=
  let div := createElement DIV in
  let div := setTextContent text div in
  innerHTML div.

(** The [options] argument of [createWPTableMarkup]; [None] is a property
    left [undefined], which takes its default. *)
Record MarkupOptions : Type := mkMarkupOptions {
  hasHeader : option bool;
  hasFixedLayout : option bool;
  hasStripes : option bool
}.

(** [parts.join(sep)] *)
Fixpoint join (sep : jsstring) (parts : list jsstring) : jsstring :=
  match parts with
  | [] => []
  | [p] => p
  | p :: ps => p ++ sep ++ join sep ps
  end.

(** The [class] attribute of the table tag, with its leading space, or
    nothing when no style flag is set. *)
Definition classAttr (hasFixedLayout' hasStripes' : bool) : jsstring :=
  let classNames := [] in
  let classNames :=
    if hasFixedLayout' then classNames ++ [lit "has-fixed-layout"]
    else classNames in
  let classNames :=
    if hasStripes' then classNames ++ [lit "has-stripes"] else classNames in
  if 0 <? List.length classNames
  then lit " class=" ++ [QUOTE] ++ join (lit " ") classNames ++ [QUOTE]
  else [].

(** The cells of one row appended to [tableHTML], each between an opening
    and a closing tag. *)
Definition appendCells (open close : jsstring) (row : Row)
    (tableHTML : jsstring) : jsstring :=
  fold_left
    (fun tableHTML cellText =>
       tableHTML ++ open ++ escapeHTML cellText ++ close)
    row tableHTML.

(** The string [tableHTML] as it is when the wrapper is put around it. *)
Definition tableHTML (data : Table) (hasHeader' : bool) : jsstring :=
  let tableHTML := [] in
  let tableHTML :=
    if hasHeader' && (0 <? List.length data) then
      let tableHTML := tableHTML ++ lit "<thead><tr>" in
      let tableHTML :=
        appendCells (lit "<th>") (lit "</th>") (nth 0 data []) tableHTML in
      tableHTML ++ lit "</tr></thead>"
    else tableHTML in
  let tableHTML := tableHTML ++ lit "<tbody>" in
  let startIndex := if hasHeader' then 1 else 0 in
  let tableHTML :=
    fold_left
      (fun tableHTML row =>
         let tableHTML := tableHTML ++ lit "<tr>" in
         let tableHTML :=
           appendCells (lit "<td>") (lit "</td>") row tableHTML in
         tableHTML ++ lit "</tr>")
      (skipn startIndex data) tableHTML in
  tableHTML ++ lit "</tbody>".

(** The template that wraps the table in the block comments and the
    figure. *)
Definition blockMarkup (classAttr' tableHTML' : jsstring) : jsstring :=
  lit "<!-- wp:table -->" ++ [LF]
  ++ lit "<figure class=" ++ [QUOTE] ++ lit "wp-block-table" ++ [QUOTE]
  ++ lit "><table" ++ classAttr' ++ lit ">" ++ tableHTML'
  ++ lit "</table></figure>" ++ [LF]
  ++ lit "<!-- /wp:table -->".

Definition createWPTableMarkup (data : Table) (options : MarkupOptions)
  : option jsstring :=
  let hasHeader' :=
    match hasHeader options with Some b => b | None => false end in
  let hasFixedLayout' :=
    match hasFixedLayout options with Some b => b | None => true end in
  let hasStripes' :=
    match hasStripes options with Some b => b | None => false end in
  if (List.length data =? 0) then None
  else
    Some (blockMarkup (classAttr hasFixedLayout' hasStripes')
                      (tableHTML data hasHeader')).

End CsvToWpblock.

Import CsvToHtml.

(* ================================================================= *)
(** ** Vocabulary of the statements *)

(** Which branch of the [if] chain an iteration takes, and what it leaves. *)
Inductive BodyCase (c : char) (nextChar : option char) (st : ParserState)
  : ParserState * bool -> Prop :=
| TakeEscape :
    c = QUOTE -> insideQuotes st = true -> nextChar = Some QUOTE ->
    BodyCase c nextChar st (append QUOTE st, true)
| TakeToggle :
    c = QUOTE -> insideQuotes st = false \/ nextChar <> Some QUOTE ->
    BodyCase c nextChar st (toggle st, false)
| TakeEndField :
    c = COMMA -> insideQuotes st = false ->
    BodyCase c nextChar st (endField st, false)
| TakeEndRow (skip : bool) :
    c = LF \/ c = CR -> insideQuotes st = false ->
    (skip = true <-> c = CR /\ nextChar = Some LF) ->
    BodyCase c nextChar st (endRow st, skip)
| TakeAppend :
    c <> QUOTE ->
    insideQuotes st = true \/ (c <> COMMA /\ c <> LF /\ c <> CR) ->
    BodyCase c nextChar st (append c st, false).

(** Every cell of the row is the empty string. *)
Definition allBlank (row : Row) : Prop := Forall (fun cell => cell = []) row.

(** What the loop keeps true while it reads white space only: it never
    enters quote-mode, never starts a cell, and pushes blank rows only. *)
Definition blankSoFar (st : ParserState) : Prop :=
  insideQuotes st = false
  /\ currentRow st = []
  /\ forallb is_white (currentField st) = true
  /\ Forall allBlank (rows st).

(** [currentField += s], for a run of code units. *)
Definition appendAll (s : jsstring) (st : ParserState) : ParserState :=
  {| rows := rows st;
     currentRow := currentRow st;
     currentField := currentField st ++ s;
     insideQuotes := insideQuotes st |}.

(** A code unit the body copies into the field when the flag is [q]: not a
    quote, and inside quote-mode anything else, outside it neither a comma
    nor a line terminator. *)
Definition isContent (q : bool) (c : char) : Prop :=
  c <> QUOTE /\ (q = true \/ (c <> COMMA /\ c <> LF /\ c <> CR)).

(** The number of quote code units in a string, a row, a table. *)
Definition quotesOf (s : jsstring) : nat := count_occ N.eq_dec s QUOTE.

Definition quotesOfRow (row : Row) : nat := quotesOf (List.concat row).

Definition quotesOfTable (t : Table) : nat :=
  quotesOf (List.concat (List.concat t)).

(** The number of times the escaped-quote rule applies in a scan that starts
    with the quote-mode flag [q]: a quote read in quote-mode with a quote
    right after it; the pair is consumed, and any other quote only flips the
    flag. *)
Fixpoint escapes (rest : jsstring) (q : bool) : nat :=
  match rest with
  | [] => 0
  | c :: tl =>
      if (c =? QUOTE)%N then
        match tl with
        | n :: tl' =>
            if q && (n =? QUOTE)%N then S (escapes tl' q)
            else escapes tl (negb q)
        | [] => 0
        end
      else escapes tl q
  end.

(** The quotes the parser holds: in the rows pushed, in the cells of the
    current row, in the current field. *)
Definition quotesHeld (st : ParserState) : nat :=
  quotesOfTable (rows st) + quotesOfRow (currentRow st)
  + quotesOf (currentField st).

(** No white space at either end. *)
Definition trimmed (cell : Cell) : Prop := trim cell = cell.

(** The cells pushed so far are trimmed. *)
Definition cellsTrimmed (st : ParserState) : Prop :=
  Forall (Forall trimmed) (rows st) /\ Forall trimmed (currentRow st).

(** The first and the last code unit of the cell, if it has any, are not
    white space. *)
Definition cleanEdges (cell : Cell) : bool :=
  match cell with
  | [] => true
  | c :: _ => negb (is_white c) && negb (is_white (last cell c))
  end.

(** *** CSV text written the standard way *)

(** A field as a writer of CSV puts it in the text: as it is, or between
    quotes with every quote of the value doubled. *)
Inductive Field : Type :=
| Plain (value : jsstring)
| Quoted (value : jsstring).

Definition fieldValue (f : Field) : jsstring :=
  match f with Plain v => v | Quoted v => v end.

(** Every quote doubled. *)
Definition doubleQuotes (s : jsstring) : jsstring :=
  flat_map (fun c => if (c =? QUOTE)%N then [QUOTE; QUOTE] else [c]) s.

Definition fieldText (f : Field) : jsstring :=
  match f with
  | Plain v => v
  | Quoted v => [QUOTE] ++ doubleQuotes v ++ [QUOTE]
  end.

(** A value can be written plain if it holds no quote, comma or line
    terminator; any value can be written quoted. *)
Definition writable (f : Field) : Prop :=
  match f with
  | Plain v => Forall (isContent false) v
  | Quoted _ => True
  end.

(** The fields of a line with a comma between them. *)
Fixpoint lineText (fields : list Field) : jsstring :=
  match fields with
  | [] => []
  | [f] => fieldText f
  | f :: fs => fieldText f ++ [COMMA] ++ lineText fs
  end.

(** The three ways to end a line. *)
Inductive Eol : Type := EolLF | EolCR | EolCRLF.

Definition eolText (e : Eol) : jsstring :=
  match e with
  | EolLF => [LF]
  | EolCR => [CR]
  | EolCRLF => [CR; LF]
  end.

(** Lines with their line ends, then a last line without one. *)
Fixpoint writeCSV (lines : list (list Field * Eol)) (lastLine : list Field)
  : jsstring :=
  match lines with
  | [] => lineText lastLine
  | (fields, e) :: more =>
      lineText fields ++ eolText e ++ writeCSV more lastLine
  end.

(** The cells a line stands for. *)
Definition cellsOf (fields : list Field) : Row :=
  map (fun f => trim (fieldValue f)) fields.

(** The parser's locals after the fields of a line, before its end. *)
Fixpoint afterFields (fields : list Field) (st : ParserState) : ParserState :=
  match fields with
  | [] => st
  | [f] => appendAll (fieldValue f) st
  | f :: fs => afterFields fs (endField (appendAll (fieldValue f) st))
  end.

(** The locals between two lines: rows pushed, nothing else. *)
Definition betweenLines (t : Table) : ParserState :=
  {| rows := t; currentRow := []; currentField := []; insideQuotes := false |}.

(** *** Counting *)

(** The number of code units of [s] that are [c]. *)
Definition countOf (c : char) (s : jsstring) : nat := count_occ N.eq_dec s c.

(** The number of line feeds and carriage returns of [s]. *)
Definition lineBreaks (s : jsstring) : nat := countOf LF s + countOf CR s.

(** The number of cells of a table. *)
Definition cellCount (t : Table) : nat := List.length (List.concat t).

(** *** Reading a table element *)

(** The rows of the sections of [table] that have tag [section]: for each
    [tr] in them, the text of its cells. *)
Definition sectionRows (section : Tag) (table : Node) : Table :=
  flat_map
    (fun s => map (fun tr => map textContent (childNodes tr)) (childNodes s))
    (filter (hasTag section) (childNodes table)).

(** The element the builders make for a cell: created, then given its
    text. *)
Definition cellElement (cellTag : Tag) (cellText : jsstring) : Node :=
  setTextContent cellText (createElement cellTag).

(** The cell elements of those rows. *)
Definition sectionCells (section : Tag) (table : Node) : list (list Node) :=
  flat_map
    (fun s => map childNodes (childNodes s))
    (filter (hasTag section) (childNodes table)).

(** *** The HTML of a table *)

(** The cells of a row, each escaped and put between [open] and [close]. *)
Definition cellsHTML (open close : jsstring) (row : Row) : jsstring :=
  flat_map (fun cellText => open ++ CsvToWpblock.escapeHTML cellText ++ close)
           row.

(** The rows of a table body. *)
Definition bodyRowsHTML (t : Table) : jsstring :=
  flat_map
    (fun row => lit "<tr>" ++ cellsHTML (lit "<td>") (lit "</td>") row
                ++ lit "</tr>")
    t.

(** A table's sections: the head with the first row if [header] is set,
    then the body with the other rows. *)
Definition sectionsHTML (header : bool) (row0 : Row) (more : Table)
  : jsstring :=
  (if header
   then lit "<thead><tr>" ++ cellsHTML (lit "<th>") (lit "</th>") row0
        ++ lit "</tr></thead>"
   else [])
  ++ lit "<tbody>" ++ bodyRowsHTML (if header then more else row0 :: more)
  ++ lit "</tbody>".

(** *** What the parser holds *)

(** The code units the parser holds: those of the rows pushed, of the cells
    of the current row and of the current field. *)
Definition held (st : ParserState) : jsstring :=
  List.concat (List.concat (rows st)) ++ List.concat (currentRow st)
  ++ currentField st.

(** The number of cells the parser has finished: those of the rows pushed
    and those of the current row. *)
Definition cellsDone (st : ParserState) : nat :=
  cellCount (rows st) + List.length (currentRow st).

(* ================================================================= *)
(** ** Facts about [trim] *)

Section Trim.

Lemma trimStart_white_prefix (l s : jsstring) :
  forallb is_white l = true -> trimStart (l ++ s) = trimStart s.
Proof.
  induction l as [|c l IH]; simpl; intros H; [reflexivity|].
  apply andb_true_iff in H as [Hc Hl]. rewrite Hc. auto.
Qed.

Lemma trimStart_all_white (s : jsstring) :
  forallb is_white s = true -> trimStart s = [].
Proof.
  intros H. rewrite <- (app_nil_r s). now rewrite trimStart_white_prefix.
Qed.

(** [trimStart] removes a prefix of white space and nothing else. *)
Lemma trimStart_split (s : jsstring) :
  exists l, s = l ++ trimStart s /\ forallb is_white l = true.
Proof.
  induction s as [|c s [l [Hs Hl]]]; simpl.
  - exists []. auto.
  - destruct (is_white c) eqn:Hc.
    + exists (c :: l). simpl. rewrite Hc, Hl. split; [congruence|reflexivity].
    + exists []. auto.
Qed.

Lemma trimStart_head (s : jsstring) (c : char) (t : jsstring) :
  trimStart s = c :: t -> is_white c = false.
Proof.
  induction s as [|a s IH]; simpl; [discriminate|].
  destruct (is_white a) eqn:Ha; auto. intros E. congruence.
Qed.

Lemma trimStart_fixed (s : jsstring) :
  match s with [] => True | c :: _ => is_white c = false end ->
  trimStart s = s.
Proof. destruct s as [|c s]; simpl; [auto|]. now intros ->. Qed.

Lemma trimStart_idem (s : jsstring) : trimStart (trimStart s) = trimStart s.
Proof.
  apply trimStart_fixed. destruct (trimStart s) eqn:E; [exact I|].
  eapply trimStart_head; eauto.
Qed.

Lemma forallb_rev (f : char -> bool) (l : jsstring) :
  forallb f (rev l) = forallb f l.
Proof.
  induction l as [|a l IH]; simpl; [reflexivity|].
  rewrite forallb_app, IH. simpl. rewrite andb_true_r. apply andb_comm.
Qed.

(** [trimEnd] removes a suffix of white space and nothing else. *)
Lemma trimEnd_split (s : jsstring) :
  exists r, s = trimEnd s ++ r /\ forallb is_white r = true.
Proof.
  unfold trimEnd. destruct (trimStart_split (rev s)) as [l [Hs Hl]].
  exists (rev l). split.
  - rewrite <- rev_app_distr, <- Hs. now rewrite rev_involutive.
  - now rewrite forallb_rev.
Qed.

(** The shape of [s.trim()]: white space on both sides is removed and what
    is between is kept as it is. *)
Lemma trim_split (s : jsstring) :
  exists l r, s = l ++ trim s ++ r
              /\ forallb is_white l = true /\ forallb is_white r = true.
Proof.
  destruct (trimStart_split s) as [l [Hs Hl]].
  destruct (trimEnd_split (trimStart s)) as [r [Ht Hr]].
  exists l, r. unfold trim. now rewrite <- Ht.
Qed.

Lemma trim_all_white (s : jsstring) :
  forallb is_white s = true -> trim s = [].
Proof.
  intros H. unfold trim. now rewrite (trimStart_all_white _ H).
Qed.

Lemma trim_nil : trim [] = [].
Proof. reflexivity. Qed.

(** The first code unit of a trimmed string is not white space. *)
Lemma trim_head (s : jsstring) (c : char) (t : jsstring) :
  trim s = c :: t -> is_white c = false.
Proof.
  intros E. destruct (trimEnd_split (trimStart s)) as [r [Hs _]].
  fold (trim s) in Hs. rewrite E in Hs. simpl in Hs.
  eapply trimStart_head; eauto.
Qed.

(** Nor is the last one. *)
Lemma trim_last (s t : jsstring) (c : char) :
  trim s = t ++ [c] -> is_white c = false.
Proof.
  unfold trim, trimEnd. intros E.
  apply (f_equal (@rev char)) in E.
  rewrite rev_involutive, rev_app_distr in E. simpl in E.
  eapply trimStart_head; eauto.
Qed.

Lemma trim_idem (s : jsstring) : trim (trim s) = trim s.
Proof.
  assert (H : trimStart (trim s) = trim s).
  { apply trimStart_fixed. destruct (trim s) eqn:E; [exact I|].
    eapply trim_head; eauto. }
  unfold trim at 1. rewrite H. unfold trim, trimEnd.
  now rewrite rev_involutive, trimStart_idem.
Qed.

(** A string with no white space at either end is left alone. *)
Lemma trim_fixed (s : jsstring) :
  match s with [] => True | c :: _ => is_white c = false end ->
  match rev s with [] => True | c :: _ => is_white c = false end ->
  trim s = s.
Proof.
  intros H1 H2. unfold trim, trimEnd.
  rewrite (trimStart_fixed s H1), (trimStart_fixed (rev s) H2).
  apply rev_involutive.
Qed.

End Trim.

(* ================================================================= *)
(** ** The loop *)

Section Loop.

(** One unfolding of [scan]: run the body, then continue after one or two
    code units. *)
Lemma scan_cons (c : char) (rest : jsstring) (st : ParserState) :
  scan (c :: rest) st
  = scan (if snd (loopBody c (hd_error rest) st) then List.tl rest else rest)
         (fst (loopBody c (hd_error rest) st)).
Proof.
  simpl. destruct (loopBody c (hd_error rest) st) as [st' skip].
  destruct rest, skip; reflexivity.
Qed.

(** An invariant of the body, possibly depending on a property of the
    input that its suffixes inherit, holds after the loop. *)
Lemma scan_preserves (Q : jsstring -> Prop) (P : ParserState -> Prop) :
  (forall c rest, Q (c :: rest) -> Q rest) ->
  (forall c rest st, Q (c :: rest) -> P st ->
                     P (fst (loopBody c (hd_error rest) st))) ->
  forall s st, Q s -> P st -> P (scan s st).
Proof.
  intros HQ HP s.
  assert (H : forall n s, List.length s <= n ->
                          forall st, Q s -> P st -> P (scan s st)).
  { induction n as [|n IH]; intros [|c rest] Hlen st Hq Hp;
      simpl in Hlen; try exact Hp; try lia.
    rewrite scan_cons. apply IH.
    - destruct (snd _); [destruct rest; simpl in *|]; lia.
    - destruct (snd _); [|eauto].
      destruct rest as [|a r]; simpl; eauto.
    - eauto. }
  eauto.
Qed.

Lemma scan_invariant (P : ParserState -> Prop) :
  (forall c n st, P st -> P (fst (loopBody c n st))) ->
  forall s st, P st -> P (scan s st).
Proof.
  intros HP s st. apply (scan_preserves (fun _ => True)); auto.
Qed.

Lemma skipn_nth_error (l : jsstring) :
  forall i c, nth_error l i = Some c -> skipn i l = c :: skipn (S i) l.
Proof.
  induction l as [|a l IH]; intros [|i] c H; simpl in *; try discriminate.
  - congruence.
  - now apply IH.
Qed.

Lemma tl_skipn (l : jsstring) : forall i, List.tl (skipn i l) = skipn (S i) l.
Proof.
  induction l as [|a l IH]; intros [|i]; simpl; auto.
Qed.

(** The index loop leaves the string within [length csvText - i]
    iterations, in the state the recursion on the unread part computes. *)
Lemma forLoop_scan (csvText : jsstring) (fuel : nat) :
  forall i st,
    List.length csvText - i <= fuel ->
    forLoop fuel csvText i st = Some (scan (skipn i csvText) st).
Proof.
  induction fuel as [|fuel IH]; intros i st Hfuel.
  - simpl. destruct (nth_error csvText i) eqn:E.
    + assert (i < List.length csvText) by (apply nth_error_Some; congruence).
      lia.
    + apply nth_error_None in E. now rewrite skipn_all2.
  - simpl. destruct (nth_error csvText i) eqn:E.
    + rewrite (skipn_nth_error _ _ _ E), scan_cons.
      rewrite hd_error_skipn, Nat.add_1_r.
      assert (i < List.length csvText) by (apply nth_error_Some; congruence).
      destruct (loopBody c (nth_error csvText (S i)) st) as [st' skip].
      cbn [fst snd]. destruct skip.
      * rewrite tl_skipn, IH by lia. do 3 f_equal. lia.
      * now rewrite IH by lia.
    + apply nth_error_None in E. now rewrite skipn_all2.
Qed.

Lemma parseCSV_fuel_enough (csvText : jsstring) (fuel : nat) :
  List.length csvText <= fuel ->
  parseCSV_fuel fuel csvText = Some (parseCSV csvText).
Proof.
  intros H. unfold parseCSV_fuel, parseCSV.
  rewrite forLoop_scan by lia. reflexivity.
Qed.

End Loop.

(* ================================================================= *)
(** ** The branches of the loop body *)

Lemma loopBody_cases (c : char) (nextChar : option char) (st : ParserState) :
  BodyCase c nextChar st (loopBody c nextChar st).
Proof.
  unfold loopBody.
  destruct (N.eqb_spec c QUOTE) as [Eq|Nq].
  - destruct nextChar as [n|].
    + destruct (insideQuotes st) eqn:Ei; simpl.
      * destruct (N.eqb_spec n QUOTE) as [->|Nn].
        -- now apply TakeEscape.
        -- apply TakeToggle; [assumption|]. right. congruence.
      * apply TakeToggle; auto.
    + apply TakeToggle; [assumption|]. right. discriminate.
  - destruct (N.eqb_spec c COMMA) as [Ec|Nc];
      destruct (insideQuotes st) eqn:Ei; simpl;
      rewrite ?andb_false_r, ?andb_true_r.
    + apply TakeAppend; auto.
    + now apply TakeEndField.
    + apply TakeAppend; auto.
    +
      destruct (N.eqb_spec c LF) as [El|Nl]; simpl.
      * destruct nextChar as [n|]; apply TakeEndRow; auto;
          subst c; split; try discriminate; intros [H _]; discriminate H.
      * destruct (N.eqb_spec c CR) as [Er|Nr]; simpl.
        -- destruct nextChar as [n|]; apply TakeEndRow; auto.
           ++ destruct (N.eqb_spec n LF) as [->|Nn]; split; auto;
                try discriminate. intros [_ H]. congruence.
           ++ split; [discriminate|]. intros [_ H]. discriminate H.
        -- apply TakeAppend; auto.
  Qed.

(** The only iterations that advance by two are the escaped quote and the
    CR LF pair, and both find a next code unit. *)
Lemma loopBody_skip (c : char) (nextChar : option char) (st : ParserState) :
  snd (loopBody c nextChar st) = true -> nextChar <> None.
Proof.
  destruct (loopBody_cases c nextChar st) as [? ? ->| | |skip ? ? Hs|];
    simpl; try discriminate.
  intros ->. destruct Hs as [Hs _]. destruct (Hs eq_refl) as [_ ->].
  discriminate.
Qed.

(* ================================================================= *)
(** ** Termination *)

(** C1.  For every input string the loop leaves the string and [parseCSV]
    returns a table: run index by index, with at least as many iterations
    allowed as the string has code units, the parser never reaches the bound
    and its result is the table [parseCSV] computes.  The string is
    arbitrary: empty, with unmatched quotes, with rows of different
    lengths. *)
Theorem parseCSV_total (csvText : jsstring) (extra : nat) :
  parseCSV_fuel (List.length csvText + extra) csvText
  = Some (parseCSV csvText).
Proof. apply parseCSV_fuel_enough. lia. Qed.

(* ================================================================= *)
(** ** The two copies *)

Lemma loopBody_agree (c : char) (nextChar : option char) (st : ParserState) :
  CsvToHtml.loopBody c nextChar st = CsvToWpblock.loopBody c nextChar st.
Proof.
  unfold CsvToHtml.loopBody, CsvToWpblock.loopBody, endRow, pending,
    endField, append, toggle.
  destruct (c =? QUOTE)%N.
  { destruct nextChar as [n|]; rewrite ?andb_false_r; reflexivity. }
  destruct ((c =? COMMA)%N && negb (insideQuotes st)); [reflexivity|].
  destruct (((c =? LF)%N || (c =? CR)%N) && negb (insideQuotes st));
    [|reflexivity].
  destruct nextChar; rewrite ?andb_false_r;
    destruct (negb (is_empty (currentField st))
              || (0 <? List.length (currentRow st))); reflexivity.
Qed.

Lemma scan_agree (s : jsstring) :
  forall st, CsvToHtml.scan s st = CsvToWpblock.scan s st.
Proof.
  assert (H : forall n s, List.length s <= n ->
                          forall st, CsvToHtml.scan s st = CsvToWpblock.scan s st).
  { induction n as [|n IH]; intros [|c rest] Hlen st;
      simpl in Hlen; try reflexivity; try lia.
    simpl. rewrite loopBody_agree.
    destruct (CsvToWpblock.loopBody c (hd_error rest) st) as [st' skip].
    destruct rest as [|a r]; [reflexivity|].
    simpl in Hlen. destruct skip; apply IH; simpl; lia. }
  eauto.
Qed.

(** C10.  The parser of [csv_to_html/script.js] and the parser of
    [csv_to_wpblock/script.js] return the same table on every input
    string. *)
Theorem parseCSV_copies_agree (csvText : jsstring) :
  CsvToHtml.parseCSV csvText = CsvToWpblock.parseCSV csvText.
Proof.
  unfold CsvToHtml.parseCSV, CsvToWpblock.parseCSV, dropBlank, lastRow, pending.
  rewrite scan_agree. reflexivity.
Qed.

(* ================================================================= *)
(** ** Blank rows *)

Lemma hasContent_false (row : Row) : hasContent row = false <-> allBlank row.
Proof.
  unfold hasContent, allBlank. induction row as [|c row IH]; simpl.
  - split; auto.
  - destruct c; simpl; split.
    + intros H. constructor; [reflexivity|now apply IH].
    + intros H. inversion H. now apply IH.
    + discriminate.
    + intros H. inversion H. discriminate.
Qed.

Lemma dropBlank_spec (t : Table) (row : Row) :
  In row (dropBlank t) <-> In row t /\ ~ allBlank row.
Proof.
  unfold dropBlank. rewrite filter_In, <- hasContent_false.
  destruct (hasContent row); intuition congruence.
Qed.

Lemma dropBlank_all_blank (t : Table) :
  Forall allBlank t -> dropBlank t = [].
Proof.
  induction 1 as [|row t Hrow _ IH]; [reflexivity|].
  unfold dropBlank in *. simpl.
  apply hasContent_false in Hrow. now rewrite Hrow.
Qed.

(** C5.  No row of the table [parseCSV] returns has only empty cells,
    whatever the input; and the middle row of two empty cells is dropped
    from the example. *)
Theorem parseCSV_no_blank_row :
  (forall csvText : jsstring,
      Forall (fun row => ~ allBlank row) (parseCSV csvText))
  /\ parseCSV (lit "a,b" ++ [LF] ++ lit "," ++ [LF] ++ lit "c,d")
     = [[lit "a"; lit "b"]; [lit "c"; lit "d"]].
Proof.
  split; [|reflexivity].
  intros csvText. apply Forall_forall. intros row Hin.
  now apply dropBlank_spec in Hin.
Qed.

(* ================================================================= *)
(** ** White space only *)

Lemma white_not_quote (c : char) : is_white c = true -> c <> QUOTE.
Proof. intros H ->. discriminate H. Qed.

Lemma white_not_comma (c : char) : is_white c = true -> c <> COMMA.
Proof. intros H ->. discriminate H. Qed.

Lemma blankSoFar_body (c : char) (nextChar : option char) (st : ParserState) :
  is_white c = true -> blankSoFar st ->
  blankSoFar (fst (loopBody c nextChar st)).
Proof.
  intros Hc (Hq & Hrow & Hfield & Hrows).
  destruct (loopBody_cases c nextChar st) as [E| E|E| |]; simpl.
  - now apply white_not_quote in Hc.
  - now apply white_not_quote in Hc.
  - now apply white_not_comma in Hc.
  - unfold endRow. destruct (pending st); [|now repeat split].
    repeat split; simpl; auto.
    apply Forall_app. split; [assumption|].
    constructor; [|constructor].
    rewrite Hrow, (trim_all_white _ Hfield). simpl.
    constructor; [reflexivity|constructor].
  - repeat split; simpl; auto.
    rewrite forallb_app, Hfield. simpl. now rewrite Hc.
Qed.

Lemma blankSoFar_scan (s : jsstring) :
  forallb is_white s = true -> blankSoFar (scan s initialState).
Proof.
  intros Hs.
  apply (scan_preserves (fun s => forallb is_white s = true) blankSoFar);
    auto.
  - intros c rest H. simpl in H. now apply andb_true_iff in H.
  - intros c rest st H. simpl in H. apply andb_true_iff in H as [Hc _].
    now apply blankSoFar_body.
  - repeat split; constructor.
Qed.

(** C8.  An input made of white space and line terminators only, the empty
    string included, parses to the empty table. *)
Theorem parseCSV_blank_input (csvText : jsstring) :
  forallb is_white csvText = true -> parseCSV csvText = [].
Proof.
  intros Hs. destruct (blankSoFar_scan _ Hs) as (Hq & Hrow & Hfield & Hrows).
  unfold parseCSV. apply dropBlank_all_blank.
  unfold lastRow. destruct (pending _); [|assumption].
  apply Forall_app. split; [assumption|].
  constructor; [|constructor].
  rewrite Hrow, (trim_all_white _ Hfield).
  constructor; [reflexivity|constructor].
Qed.

(** The two inputs the specification names: the empty string, and three
    spaces, two line feeds, two spaces. *)
Lemma parseCSV_blank_input_witness :
  parseCSV [] = []
  /\ parseCSV (lit "   " ++ [LF; LF] ++ lit "  ") = [].
Proof.
  split; apply parseCSV_blank_input; reflexivity.
Defined.

(* ================================================================= *)
(** ** Ordinary content *)

Lemma loopBody_content (c : char) (nextChar : option char) (st : ParserState) :
  isContent (insideQuotes st) c ->
  loopBody c nextChar st = (append c st, false).
Proof.
  intros [Hq Hc].
  destruct (loopBody_cases c nextChar st) as [| | |skip [|]|];
    try reflexivity; try contradiction;
    destruct Hc as [Hc|(? & ? & ?)]; congruence.
Qed.

Lemma appendAll_append (c : char) (s : jsstring) (st : ParserState) :
  appendAll s (append c st) = appendAll (c :: s) st.
Proof. unfold appendAll, append. simpl. now rewrite <- app_assoc. Qed.

Lemma appendAll_nil (st : ParserState) : appendAll [] st = st.
Proof. destruct st. unfold appendAll. simpl. now rewrite app_nil_r. Qed.

(** A run of content is copied into the field one code unit at a time, and
    the loop goes on with what follows it. *)
Lemma scan_content_app (body rest : jsstring) :
  forall st,
    Forall (isContent (insideQuotes st)) body ->
    scan (body ++ rest) st = scan rest (appendAll body st).
Proof.
  induction body as [|c body IH]; intros st H.
  - now rewrite appendAll_nil.
  - inversion H as [|? ? Hc Hbody]; subst.
    rewrite <- app_comm_cons, scan_cons, (loopBody_content _ _ _ Hc).
    cbn [fst snd]. rewrite IH by assumption. now rewrite appendAll_append.
Qed.

Lemma scan_content (body : jsstring) (st : ParserState) :
  Forall (isContent (insideQuotes st)) body ->
  scan body st = appendAll body st.
Proof.
  intros H. rewrite <- (app_nil_r body) at 1.
  now rewrite scan_content_app.
Qed.

Lemma quoted_content (body : jsstring) :
  ~ In QUOTE body -> Forall (isContent true) body.
Proof.
  intros H. apply Forall_forall. intros c Hc. split; [|now left].
  intros ->. contradiction.
Qed.

(** C2.  In quote-mode a comma, a line feed or a carriage return is appended
    to the current field and ends neither the field nor the row: the body
    leaves [rows] and [currentRow] alone, stays in quote-mode and advances
    by one.  So does a whole run of code units without a quote, whatever
    commas and terminators it holds.  The quoted field [a,b] of the example
    is one cell, and a quoted line feed gives a cell of two lines. *)
Theorem separators_inside_quotes :
  (forall (c : char) (nextChar : option char) (st : ParserState),
      insideQuotes st = true ->
      c = COMMA \/ c = LF \/ c = CR ->
      loopBody c nextChar st
      = ({| rows := rows st;
            currentRow := currentRow st;
            currentField := currentField st ++ [c];
            insideQuotes := true |}, false))
  /\ (forall (body rest : jsstring) (st : ParserState),
         insideQuotes st = true ->
         ~ In QUOTE body ->
         scan (body ++ rest) st
         = scan rest {| rows := rows st;
                        currentRow := currentRow st;
                        currentField := currentField st ++ body;
                        insideQuotes := true |})
  /\ parseCSV ([QUOTE] ++ lit "a,b" ++ [QUOTE] ++ lit ",c" ++ [LF] ++ lit "1,2")
     = [[lit "a,b"; lit "c"]; [lit "1"; lit "2"]]
  /\ parseCSV ([QUOTE] ++ lit "a" ++ [LF] ++ lit "b" ++ [QUOTE] ++ lit ",c")
     = [[lit "a" ++ [LF] ++ lit "b"; lit "c"]].
Proof.
  split; [|split; [|split; reflexivity]].
  - intros c nextChar st Hq Hc. rewrite loopBody_content.
    + unfold append. now rewrite Hq.
    + split; [|now left]. destruct Hc as [->| [->| ->]]; discriminate.
  - intros body rest st Hq Hbody. rewrite scan_content_app.
    + unfold appendAll. now rewrite Hq.
    + rewrite Hq. now apply quoted_content.
Qed.

Lemma separators_inside_quotes_witness :
  loopBody COMMA (Some SPACE)
    {| rows := []; currentRow := []; currentField := lit "a";
       insideQuotes := true |}
  = ({| rows := []; currentRow := []; currentField := lit "a,";
        insideQuotes := true |}, false)
  /\ scan (lit "a,b" ++ [QUOTE])
       {| rows := []; currentRow := []; currentField := [];
          insideQuotes := true |}
     = {| rows := []; currentRow := []; currentField := lit "a,b";
          insideQuotes := false |}.
Proof.
  split.
  - apply (proj1 separators_inside_quotes); [reflexivity|now left].
  - rewrite (proj1 (proj2 separators_inside_quotes));
      [reflexivity|reflexivity|].
    simpl. intros H. repeat destruct H as [H|H]; discriminate H || exact H.
Defined.

(* ================================================================= *)
(** ** An unmatched quote and the end of input *)

Lemma loopBody_open_quote (nextChar : option char) (st : ParserState) :
  insideQuotes st = false ->
  loopBody QUOTE nextChar st = (toggle st, false).
Proof.
  intros Hq. unfold loopBody. rewrite Hq. simpl.
  now destruct nextChar.
Qed.

Lemma scan_open_quote (body : jsstring) (st : ParserState) :
  insideQuotes st = false ->
  ~ In QUOTE body ->
  scan (QUOTE :: body) st
  = {| rows := rows st;
       currentRow := currentRow st;
       currentField := currentField st ++ body;
       insideQuotes := true |}.
Proof.
  intros Hq Hbody.
  rewrite scan_cons, loopBody_open_quote by assumption. cbn [fst snd].
  rewrite scan_content.
  - unfold appendAll, toggle. simpl. now rewrite Hq.
  - simpl. rewrite Hq. now apply quoted_content.
Qed.

Lemma dropBlank_single (cell : Cell) :
  dropBlank [[cell]] = if is_empty cell then [] else [[cell]].
Proof. now destruct cell. Qed.

(** C9.  A quote that is never closed leaves the parser in quote-mode to
    the end of the input: everything after it is appended to the current
    field.  No error comes of it.  After the loop, whatever the flag, a
    non-empty field or row is finalized as at a line terminator: the field
    trimmed and pushed on the row, the row pushed on the table.  So a text
    that is one unclosed quote and what follows it gives that one cell. *)
Theorem unmatched_quote_stays_open :
  (forall (body : jsstring) (st : ParserState),
      insideQuotes st = false ->
      ~ In QUOTE body ->
      scan (QUOTE :: body) st
      = {| rows := rows st;
           currentRow := currentRow st;
           currentField := currentField st ++ body;
           insideQuotes := true |})
  /\ (forall csvText : jsstring,
         pending (scan csvText initialState) = true ->
         parseCSV_fuel (List.length csvText) csvText
         = Some (dropBlank
                   (rows (scan csvText initialState)
                    ++ [currentRow (scan csvText initialState)
                        ++ [trim (currentField (scan csvText initialState))]])))
  /\ (forall body : jsstring,
         ~ In QUOTE body ->
         parseCSV (QUOTE :: body)
         = if is_empty (trim body) then [] else [[trim body]])
  /\ parseCSV (lit "a," ++ [QUOTE] ++ lit "b,c" ++ [LF] ++ lit "d")
     = [[lit "a"; lit "b,c" ++ [LF] ++ lit "d"]].
Proof.
  split; [|split; [|split; [|reflexivity]]].
  - exact scan_open_quote.
  - intros csvText Hp. rewrite parseCSV_fuel_enough by lia.
    unfold parseCSV, lastRow. now rewrite Hp.
  - intros body Hbody. unfold parseCSV.
    rewrite scan_open_quote by (auto || reflexivity).
    unfold lastRow, pending. simpl.
    destruct body as [|c body]; [reflexivity|].
    simpl negb. cbn [orb]. apply dropBlank_single.
Qed.

Lemma unmatched_quote_stays_open_witness :
  scan (QUOTE :: lit "b,c") (endField (appendAll (lit "a") initialState))
  = {| rows := []; currentRow := [lit "a"]; currentField := lit "b,c";
       insideQuotes := true |}
  /\ parseCSV_fuel 5 (lit "a," ++ [QUOTE] ++ lit "b ")
     = Some [[lit "a"; lit "b"]].
Proof.
  split.
  - apply (proj1 unmatched_quote_stays_open); [reflexivity|].
    simpl. intros H. repeat destruct H as [H|H]; discriminate H || exact H.
  - apply (proj1 (proj2 unmatched_quote_stays_open)
             (lit "a," ++ [QUOTE] ++ lit "b ")).
    reflexivity.
Defined.

(* ================================================================= *)
(** ** Line terminators *)

Lemma loopBody_crlf (st : ParserState) :
  insideQuotes st = false ->
  loopBody CR (Some LF) st = (endRow st, true).
Proof. intros Hq. unfold loopBody. now rewrite Hq. Qed.

Lemma loopBody_lf (nextChar : option char) (st : ParserState) :
  insideQuotes st = false ->
  loopBody LF nextChar st = (endRow st, false).
Proof. intros Hq. unfold loopBody. rewrite Hq. now destruct nextChar. Qed.

(** C4.  Outside quote-mode a carriage return followed by a line feed is one
    terminator: the iteration at the carriage return ends the row and moves
    the index past the line feed, which the body never sees, so the pair
    does what a lone line feed does and gives no blank row. *)
Theorem crlf_is_one_terminator :
  (forall st : ParserState,
      insideQuotes st = false ->
      loopBody CR (Some LF) st = (endRow st, true))
  /\ (forall (fuel : nat) (csvText : jsstring) (i : nat) (st : ParserState),
         insideQuotes st = false ->
         nth_error csvText i = Some CR ->
         nth_error csvText (i + 1) = Some LF ->
         forLoop (S fuel) csvText i st
         = forLoop fuel csvText (i + 2) (endRow st))
  /\ (forall (rest : jsstring) (st : ParserState),
         insideQuotes st = false ->
         scan (CR :: LF :: rest) st = scan rest (endRow st)
         /\ scan (CR :: LF :: rest) st = scan (LF :: rest) st)
  /\ parseCSV (lit "a,b" ++ [CR; LF] ++ lit "c,d" ++ [LF] ++ lit "e,f")
     = [[lit "a"; lit "b"]; [lit "c"; lit "d"]; [lit "e"; lit "f"]].
Proof.
  split; [|split; [|split; [|reflexivity]]].
  - exact loopBody_crlf.
  - intros fuel csvText i st Hq Hi Hn. simpl.
    now rewrite Hi, Hn, loopBody_crlf.
  - intros rest st Hq.
    assert (E : scan (CR :: LF :: rest) st = scan rest (endRow st)).
    { rewrite scan_cons. simpl hd_error. now rewrite loopBody_crlf. }
    split; [exact E|]. rewrite E, scan_cons.
    now rewrite loopBody_lf.
Qed.

Lemma crlf_is_one_terminator_witness :
  loopBody CR (Some LF) (appendAll (lit "a") initialState)
  = ({| rows := [[lit "a"]]; currentRow := []; currentField := [];
        insideQuotes := false |}, true)
  /\ forLoop 3 (lit "a" ++ [CR; LF] ++ lit "b") 1
       (appendAll (lit "a") initialState)
     = forLoop 2 (lit "a" ++ [CR; LF] ++ lit "b") 3
         (endRow (appendAll (lit "a") initialState))
  /\ scan (CR :: LF :: lit "b") (appendAll (lit "a") initialState)
     = scan (LF :: lit "b") (appendAll (lit "a") initialState).
Proof.
  split; [|split].
  - apply (proj1 crlf_is_one_terminator). reflexivity.
  - apply (proj1 (proj2 crlf_is_one_terminator)); reflexivity.
  - apply (proj1 (proj2 (proj2 crlf_is_one_terminator))). reflexivity.
Defined.

(* ================================================================= *)
(** ** Quotes in the output *)

Lemma quotesOf_app (s t : jsstring) :
  quotesOf (s ++ t) = quotesOf s + quotesOf t.
Proof. apply count_occ_app. Qed.

Lemma quotesOf_white (s : jsstring) :
  forallb is_white s = true -> quotesOf s = 0.
Proof.
  induction s as [|c s IH]; simpl; intros H; [reflexivity|].
  apply andb_true_iff in H as [Hc Hs]. unfold quotesOf in *. simpl.
  destruct (N.eq_dec c QUOTE) as [E|_]; [|auto].
  now apply white_not_quote in Hc.
Qed.

Lemma quotesOf_trim (s : jsstring) : quotesOf (trim s) = quotesOf s.
Proof.
  destruct (trim_split s) as (l & r & Hs & Hl & Hr).
  rewrite Hs at 2. rewrite !quotesOf_app.
  rewrite (quotesOf_white _ Hl), (quotesOf_white _ Hr). lia.
Qed.

Lemma quotesOfRow_push (row : Row) (cell : Cell) :
  quotesOfRow (row ++ [cell]) = quotesOfRow row + quotesOf cell.
Proof.
  unfold quotesOfRow. rewrite concat_app, quotesOf_app. simpl.
  now rewrite app_nil_r.
Qed.

Lemma quotesOfTable_push (t : Table) (row : Row) :
  quotesOfTable (t ++ [row]) = quotesOfTable t + quotesOfRow row.
Proof.
  unfold quotesOfTable, quotesOfRow.
  rewrite !concat_app, quotesOf_app. simpl. now rewrite !app_nil_r.
Qed.

Lemma pending_false (st : ParserState) :
  pending st = false -> currentField st = [] /\ currentRow st = [].
Proof.
  unfold pending. intros H. apply orb_false_iff in H as [Hf Hr].
  destruct (currentField st); [|discriminate].
  destruct (currentRow st); [auto|discriminate].
Qed.

Lemma quotesHeld_endRow (st : ParserState) :
  quotesHeld (endRow st) = quotesHeld st.
Proof.
  unfold endRow. destruct (pending st); [|reflexivity].
  unfold quotesHeld. simpl.
  rewrite quotesOfTable_push, quotesOfRow_push, quotesOf_trim.
  unfold quotesOfRow, quotesOf. simpl. lia.
Qed.

Lemma quotesOfTable_lastRow (st : ParserState) :
  quotesOfTable (lastRow st) = quotesHeld st.
Proof.
  unfold lastRow, quotesHeld. destruct (pending st) eqn:Hp.
  - rewrite quotesOfTable_push, quotesOfRow_push, quotesOf_trim. lia.
  - apply pending_false in Hp as [-> ->].
    unfold quotesOfRow, quotesOf. simpl. lia.
Qed.

Lemma allBlank_concat (row : Row) : allBlank row -> List.concat row = [].
Proof.
  induction 1 as [|cell row Hc _ IH]; [reflexivity|].
  simpl. now rewrite Hc, IH.
Qed.

Lemma quotesOfTable_dropBlank (t : Table) :
  quotesOfTable (dropBlank t) = quotesOfTable t.
Proof.
  unfold quotesOfTable, dropBlank.
  induction t as [|row t IH]; [reflexivity|].
  simpl. destruct (hasContent row) eqn:Hr.
  - simpl. now rewrite !concat_app, !quotesOf_app, IH.
  - apply hasContent_false, allBlank_concat in Hr.
    now rewrite concat_app, Hr.
Qed.

Lemma escapes_not_quote (c : char) (rest : jsstring) (q : bool) :
  c <> QUOTE -> escapes (c :: rest) q = escapes rest q.
Proof.
  intros H. simpl. now destruct (N.eqb_spec c QUOTE).
Qed.

Lemma escapes_toggle (rest : jsstring) (q : bool) :
  q = false \/ hd_error rest <> Some QUOTE ->
  escapes (QUOTE :: rest) q = escapes rest (negb q).
Proof.
  intros H. simpl. destruct rest as [|n rest]; [reflexivity|].
  destruct q; [|reflexivity]. simpl.
  destruct (N.eqb_spec n QUOTE) as [->|_]; [|reflexivity].
  destruct H as [H|H]; [discriminate|]. now destruct H.
Qed.

(** Each iteration that applies the escape rule adds one quote to what the
    parser holds, and no other iteration adds or removes one. *)
Lemma quotesHeld_scan (s : jsstring) :
  forall st,
    quotesHeld (scan s st) = quotesHeld st + escapes s (insideQuotes st).
Proof.
  assert (H : forall n s, List.length s <= n -> forall st,
               quotesHeld (scan s st)
               = quotesHeld st + escapes s (insideQuotes st)).
  { induction n as [|n IH]; intros [|c rest] Hlen st;
      simpl in Hlen; try (simpl; lia).
    rewrite scan_cons.
    destruct (loopBody_cases c (hd_error rest) st)
      as [Ec Hq Hn|Ec Hq|Ec Hq|skip Ec Hq Hs|Ec Hq]; cbn [fst snd].
    - destruct rest as [|a r]; [discriminate|].
      simpl in Hn. injection Hn as ->. subst c.
      rewrite IH by (simpl in *; lia). simpl List.tl.
      cbn [insideQuotes append]. rewrite Hq. simpl.
      unfold quotesHeld. simpl. rewrite quotesOf_app.
      change (quotesOf [QUOTE]) with 1. lia.
    - subst c. rewrite IH by lia. rewrite escapes_toggle by assumption.
      reflexivity.
    - rewrite IH by lia. rewrite escapes_not_quote by (subst c; discriminate).
      cbn [insideQuotes endField]. f_equal.
      unfold quotesHeld. simpl. rewrite quotesOfRow_push, quotesOf_trim.
      change (quotesOf []) with 0. lia.
    - assert (Hc : c <> QUOTE) by (destruct Ec; subst c; discriminate).
      assert (Hi : insideQuotes (endRow st) = insideQuotes st).
      { unfold endRow. now destruct (pending st). }
      rewrite escapes_not_quote by assumption.
      destruct skip.
      + destruct Hs as [Hs _]. destruct (Hs eq_refl) as [_ Hn].
        destruct rest as [|a r]; [discriminate|].
        simpl in Hn. injection Hn as ->.
        rewrite IH by (simpl in *; lia). simpl List.tl.
        rewrite quotesHeld_endRow, Hi.
        rewrite escapes_not_quote by discriminate. reflexivity.
      + rewrite IH by lia. now rewrite quotesHeld_endRow, Hi.
    - rewrite IH by lia. rewrite escapes_not_quote by assumption.
      cbn [insideQuotes append]. f_equal.
      unfold quotesHeld. simpl. rewrite quotesOf_app.
      assert (E : quotesOf [c] = 0).
      { unfold quotesOf. simpl.
        now destruct (N.eq_dec c QUOTE); [contradiction|]. }
      lia. }
  eauto.
Qed.

Lemma parseCSV_quotes (csvText : jsstring) :
  quotesOfTable (parseCSV csvText) = escapes csvText false.
Proof.
  unfold parseCSV.
  rewrite quotesOfTable_dropBlank, quotesOfTable_lastRow, quotesHeld_scan.
  reflexivity.
Qed.

(** C3.  A quote read in quote-mode with a quote right after it appends one
    quote to the current field and advances past both; any other quote only
    flips the flag and leaves the field as it is.  No other step puts a
    quote in a field or takes one out of a cell, so the cells of the result
    hold exactly as many quotes as the escape rule applied.  The example
    gives one cell with a quote between a and b. *)
Theorem escaped_quote_rule :
  (forall st : ParserState,
      insideQuotes st = true ->
      loopBody QUOTE (Some QUOTE) st
      = ({| rows := rows st;
            currentRow := currentRow st;
            currentField := currentField st ++ [QUOTE];
            insideQuotes := true |}, true))
  /\ (forall (nextChar : option char) (st : ParserState),
         insideQuotes st = false \/ nextChar <> Some QUOTE ->
         loopBody QUOTE nextChar st
         = ({| rows := rows st;
               currentRow := currentRow st;
               currentField := currentField st;
               insideQuotes := negb (insideQuotes st) |}, false))
  /\ (forall csvText : jsstring,
         quotesOfTable (parseCSV csvText) = escapes csvText false)
  /\ parseCSV ([QUOTE] ++ lit "a" ++ [QUOTE; QUOTE] ++ lit "b" ++ [QUOTE]
               ++ lit ",c")
     = [[lit "a" ++ [QUOTE] ++ lit "b"; lit "c"]].
Proof.
  split; [|split; [|split; [exact parseCSV_quotes|reflexivity]]].
  - intros st Hq. unfold loopBody, append. now rewrite Hq.
  - intros nextChar st H.
    destruct (loopBody_cases QUOTE nextChar st)
      as [_ Hq Hn|_ _|Ec _|skip Ec _ _|Ec _].
    + destruct H as [H|H]; congruence.
    + reflexivity.
    + discriminate Ec.
    + destruct Ec as [Ec|Ec]; discriminate Ec.
    + now destruct Ec.
Qed.

Lemma escaped_quote_rule_witness :
  loopBody QUOTE (Some QUOTE) (toggle (appendAll (lit "a") initialState))
  = ({| rows := []; currentRow := []; currentField := lit "a" ++ [QUOTE];
        insideQuotes := true |}, true)
  /\ loopBody QUOTE (Some COMMA) (toggle (appendAll (lit "a") initialState))
     = ({| rows := []; currentRow := []; currentField := lit "a";
           insideQuotes := false |}, false).
Proof.
  split.
  - apply (proj1 escaped_quote_rule). reflexivity.
  - apply (proj1 (proj2 escaped_quote_rule)). right. discriminate.
Defined.

(* ================================================================= *)
(** ** Trimmed cells *)

Lemma trimmed_push (row : Row) (field : jsstring) :
  Forall trimmed row -> Forall trimmed (row ++ [trim field]).
Proof.
  intros H. apply Forall_app. split; [assumption|].
  constructor; [apply trim_idem|constructor].
Qed.

Lemma cellsTrimmed_body (c : char) (nextChar : option char)
    (st : ParserState) :
  cellsTrimmed st -> cellsTrimmed (fst (loopBody c nextChar st)).
Proof.
  intros [Hrows Hrow].
  destruct (loopBody_cases c nextChar st); simpl; try (split; assumption).
  - split; [assumption|]. now apply trimmed_push.
  - unfold endRow. destruct (pending st); [|split; assumption].
    split; simpl; [|constructor].
    apply Forall_app. split; [assumption|].
    constructor; [now apply trimmed_push|constructor].
Qed.

Lemma parseCSV_cells_trimmed (csvText : jsstring) :
  Forall (Forall trimmed) (parseCSV csvText).
Proof.
  assert (H : cellsTrimmed (scan csvText initialState)).
  { apply scan_invariant.
    - intros c n st. apply cellsTrimmed_body.
    - split; constructor. }
  destruct H as [Hrows Hrow].
  assert (Hl : Forall (Forall trimmed) (lastRow (scan csvText initialState))).
  { unfold lastRow. destruct (pending _); [|assumption].
    apply Forall_app. split; [assumption|].
    constructor; [now apply trimmed_push|constructor]. }
  apply Forall_forall. intros row Hin.
  apply dropBlank_spec in Hin as [Hin _].
  revert row Hin. now apply Forall_forall.
Qed.

Lemma lastRow_single_field (field : jsstring) (q : bool) :
  dropBlank (lastRow {| rows := []; currentRow := []; currentField := field;
                        insideQuotes := q |})
  = if is_empty (trim field) then [] else [[trim field]].
Proof.
  unfold lastRow, pending. simpl.
  destruct field as [|c field]; [reflexivity|].
  simpl negb. cbn [orb]. apply dropBlank_single.
Qed.

(** A text without quote, comma or line terminator is one field. *)
Lemma parseCSV_plain_field (field : jsstring) :
  Forall (isContent false) field ->
  parseCSV field = if is_empty (trim field) then [] else [[trim field]].
Proof.
  intros H. unfold parseCSV. rewrite scan_content by exact H.
  apply lastRow_single_field.
Qed.

(** A text between two quotes, with no quote inside, is one field. *)
Lemma parseCSV_quoted_field (field : jsstring) :
  ~ In QUOTE field ->
  parseCSV (QUOTE :: field ++ [QUOTE])
  = if is_empty (trim field) then [] else [[trim field]].
Proof.
  intros H. unfold parseCSV.
  rewrite scan_cons, loopBody_open_quote by reflexivity. cbn [fst snd].
  rewrite scan_content_app by (now apply quoted_content).
  apply lastRow_single_field.
Qed.

Lemma trimmed_cleanEdges (cell : Cell) : trimmed cell -> cleanEdges cell = true.
Proof.
  unfold trimmed. intros H. destruct cell as [|c cell]; [reflexivity|].
  unfold cleanEdges. rewrite (trim_head _ _ _ H).
  assert (Hne : c :: cell <> []) by discriminate.
  destruct (exists_last Hne) as (t & z & E).
  rewrite E, last_last. rewrite E in H. now rewrite (trim_last _ _ _ H).
Qed.

(* ================================================================= *)
(** ** Parsing a cell again *)

(** C7, as stated, fails: a cell of the result may hold a comma that was
    quoted in the input, and parsed on its own it splits in two. *)
Lemma reparse_cell_counterexample :
  parseCSV ([QUOTE] ++ lit "a,b" ++ [QUOTE]) = [[lit "a,b"]]
  /\ lit "a,b" <> []
  /\ parseCSV (lit "a,b") = [[lit "a"; lit "b"]]
  /\ parseCSV (lit "a,b") <> [[lit "a,b"]].
Proof. repeat split; discriminate. Qed.

(** C7, amended.  A non-empty cell of a result that holds no quote, comma or
    line terminator parses to the table of that one cell: it was trimmed
    once and trimming it again changes nothing. *)
Theorem reparse_plain_cell (csvText : jsstring) (row : Row) (cell : Cell) :
  In row (parseCSV csvText) ->
  In cell row ->
  cell <> [] ->
  Forall (isContent false) cell ->
  parseCSV cell = [[cell]].
Proof.
  intros Hrow Hcell Hne Hplain.
  assert (Ht : trimmed cell).
  { pose proof (parseCSV_cells_trimmed csvText) as H.
    rewrite Forall_forall in H. specialize (H row Hrow).
    rewrite Forall_forall in H. now apply H. }
  rewrite parseCSV_plain_field by assumption.
  rewrite Ht. destruct cell; [contradiction|reflexivity].
Qed.

Lemma reparse_plain_cell_witness :
  parseCSV (lit "x y") = [[lit "x y"]].
Proof.
  apply (@reparse_plain_cell (lit "  x y  , z ") [lit "x y"; lit "z"]
           (lit "x y")).
  - left. reflexivity.
  - left. reflexivity.
  - discriminate.
  - repeat constructor; discriminate.
Defined.

(* ================================================================= *)
(** ** Reading CSV written the standard way *)

Lemma endRow_insideQuotes (st : ParserState) :
  insideQuotes (endRow st) = insideQuotes st.
Proof. unfold endRow. now destruct (pending st). Qed.

Lemma endRow_idem (st : ParserState) : endRow (endRow st) = endRow st.
Proof.
  unfold endRow at 2 3. destruct (pending st) eqn:Hp.
  - reflexivity.
  - unfold endRow. now rewrite Hp.
Qed.

Lemma lastRow_endRow (st : ParserState) : lastRow st = rows (endRow st).
Proof. unfold lastRow, endRow. now destruct (pending st). Qed.

Lemma loopBody_cr (nextChar : option char) (st : ParserState) :
  insideQuotes st = false ->
  fst (loopBody CR nextChar st) = endRow st.
Proof. intros Hq. unfold loopBody. rewrite Hq. now destruct nextChar. Qed.

Lemma loopBody_comma (nextChar : option char) (st : ParserState) :
  insideQuotes st = false ->
  loopBody COMMA nextChar st = (endField st, false).
Proof. intros Hq. unfold loopBody. now rewrite Hq. Qed.

Lemma loopBody_close_quote (nextChar : option char) (st : ParserState) :
  nextChar <> Some QUOTE ->
  loopBody QUOTE nextChar st = (toggle st, false).
Proof.
  intros Hn. unfold loopBody. simpl. destruct nextChar as [n|]; [|reflexivity].
  destruct (N.eqb_spec n QUOTE) as [->|_]; [now destruct Hn|].
  now rewrite andb_false_r.
Qed.

(** A line end outside quote-mode ends the row, whatever follows it. *)
Lemma scan_eol (e : Eol) (rest : jsstring) (st : ParserState) :
  insideQuotes st = false ->
  scan (eolText e ++ rest) st = scan rest (endRow st).
Proof.
  intros Hq. destruct e; simpl eolText; cbn [app].
  - now rewrite scan_cons, loopBody_lf.
  - destruct rest as [|n r].
    + rewrite scan_cons. simpl hd_error.
      unfold loopBody. now rewrite Hq.
    + destruct (N.eqb_spec n LF) as [->|Hn].
      * rewrite scan_cons. simpl hd_error. rewrite loopBody_crlf by assumption.
        cbn [fst snd List.tl].
        rewrite (scan_cons LF r), loopBody_lf
          by now rewrite endRow_insideQuotes.
        cbn [fst snd]. now rewrite endRow_idem.
      * rewrite scan_cons. simpl hd_error.
        unfold loopBody. rewrite Hq. simpl.
        destruct (N.eqb_spec n LF); [contradiction|reflexivity].
  - rewrite scan_cons. simpl hd_error. now rewrite loopBody_crlf.
Qed.

(** In quote-mode, a value with its quotes doubled, then the closing
    quote: the value is appended and quote-mode left. *)
Lemma scan_quoted (v rest : jsstring) :
  forall st,
    insideQuotes st = true ->
    hd_error rest <> Some QUOTE ->
    scan (doubleQuotes v ++ QUOTE :: rest) st
    = scan rest (toggle (appendAll v st)).
Proof.
  induction v as [|c v IH]; intros st Hq Hrest.
  - change (doubleQuotes [] ++ QUOTE :: rest) with (QUOTE :: rest).
    rewrite scan_cons, loopBody_close_quote by assumption.
    cbn [fst snd]. now rewrite appendAll_nil.
  - change (doubleQuotes (c :: v))
      with ((if (c =? QUOTE)%N then [QUOTE; QUOTE] else [c])
            ++ doubleQuotes v).
    destruct (N.eqb_spec c QUOTE) as [->|Hc].
    + cbn [app]. rewrite scan_cons. cbn [hd_error].
      assert (E : loopBody QUOTE (Some QUOTE) st = (append QUOTE st, true)).
      { unfold loopBody. now rewrite Hq. }
      rewrite E. cbn [fst snd List.tl].
      rewrite IH by assumption. now rewrite appendAll_append.
    + cbn [app]. rewrite scan_cons, loopBody_content.
      * cbn [fst snd]. rewrite IH by assumption.
        now rewrite appendAll_append.
      * split; [assumption|now left].
Qed.

Lemma toggle_appendAll_toggle (v : jsstring) (st : ParserState) :
  toggle (appendAll v (toggle st)) = appendAll v st.
Proof.
  unfold toggle, appendAll. simpl. now rewrite negb_involutive.
Qed.

(** A field as written is read back as its value, provided no quote
    follows a closing quote. *)
Lemma scan_field (f : Field) (rest : jsstring) (st : ParserState) :
  insideQuotes st = false ->
  writable f ->
  hd_error rest <> Some QUOTE ->
  scan (fieldText f ++ rest) st = scan rest (appendAll (fieldValue f) st).
Proof.
  intros Hq Hf Hrest. destruct f as [v|v]; simpl fieldText; simpl fieldValue.
  - apply scan_content_app. now rewrite Hq.
  - cbn [app]. rewrite scan_cons, loopBody_open_quote by assumption.
    cbn [fst snd]. rewrite <- app_assoc. cbn [app].
    rewrite scan_quoted; [|simpl; now rewrite Hq|assumption].
    now rewrite toggle_appendAll_toggle.
Qed.

Lemma afterFields_insideQuotes (fields : list Field) :
  forall st, insideQuotes (afterFields fields st) = insideQuotes st.
Proof.
  induction fields as [|f fs IH]; intros st; [reflexivity|].
  destruct fs as [|f2 fs]; [reflexivity|].
  change (afterFields (f :: f2 :: fs) st)
    with (afterFields (f2 :: fs) (endField (appendAll (fieldValue f) st))).
  now rewrite IH.
Qed.

Lemma scan_line (fields : list Field) (rest : jsstring) :
  forall st,
    insideQuotes st = false ->
    Forall writable fields ->
    hd_error rest <> Some QUOTE ->
    scan (lineText fields ++ rest) st = scan rest (afterFields fields st).
Proof.
  induction fields as [|f fs IH]; intros st Hq Hw Hrest; [reflexivity|].
  inversion Hw as [|? ? Hf Hfs]; subst.
  destruct fs as [|f2 fs].
  - simpl lineText. simpl afterFields. now apply scan_field.
  - change (lineText (f :: f2 :: fs))
      with (fieldText f ++ [COMMA] ++ lineText (f2 :: fs)).
    change (afterFields (f :: f2 :: fs) st)
      with (afterFields (f2 :: fs) (endField (appendAll (fieldValue f) st))).
    rewrite <- !app_assoc. rewrite scan_field; try assumption.
    + cbn [app]. rewrite scan_cons, loopBody_comma by exact Hq.
      cbn [fst snd]. now apply IH.
    + simpl. discriminate.
Qed.

(** After the fields of a line, the current row with the trimmed current
    field is the row of cells the line stands for. *)
Lemma afterFields_cells (f : Field) (fields : list Field) :
  forall st,
    currentField st = [] ->
    rows (afterFields (f :: fields) st) = rows st
    /\ currentRow (afterFields (f :: fields) st)
       ++ [trim (currentField (afterFields (f :: fields) st))]
       = currentRow st ++ cellsOf (f :: fields).
Proof.
  revert f. induction fields as [|f2 fs IH]; intros f st Hfield.
  - simpl. now rewrite Hfield.
  - change (afterFields (f :: f2 :: fs) st)
      with (afterFields (f2 :: fs) (endField (appendAll (fieldValue f) st))).
    destruct (IH f2 (endField (appendAll (fieldValue f) st)) eq_refl)
      as [Hrows Hrow].
    rewrite Hrows, Hrow. simpl. rewrite Hfield, <- app_assoc.
    split; reflexivity.
Qed.

Lemma dropBlank_app (t u : Table) :
  dropBlank (t ++ u) = dropBlank t ++ dropBlank u.
Proof. apply filter_app. Qed.

Lemma dropBlank_push_blank (t : Table) (row : Row) :
  hasContent row = false -> dropBlank (t ++ [row]) = dropBlank t.
Proof.
  intros H. rewrite dropBlank_app. unfold dropBlank at 2. simpl.
  rewrite H. apply app_nil_r.
Qed.

(** At the end of a line that started between two lines, the parser is
    between two lines again, and the line has added its row of cells, unless
    that row is blank. *)
Lemma endRow_afterFields (fields : list Field) (t : Table) :
  exists t',
    endRow (afterFields fields (betweenLines t)) = betweenLines t'
    /\ dropBlank t' = dropBlank (t ++ [cellsOf fields]).
Proof.
  destruct fields as [|f fields].
  - exists t. split; [reflexivity|].
    now rewrite dropBlank_push_blank.
  - destruct (afterFields_cells f fields (betweenLines t) eq_refl)
      as [Hrows Hrow].
    pose proof (afterFields_insideQuotes (f :: fields) (betweenLines t)) as Hq.
    remember (afterFields (f :: fields) (betweenLines t)) as s' eqn:Es.
    clear Es. remember (cellsOf (f :: fields)) as cells eqn:Ec. clear Ec.
    simpl in Hrow, Hrows, Hq.
    unfold endRow. destruct (pending s') eqn:Hp.
    + exists (t ++ [cells]). split; [|reflexivity].
      unfold betweenLines. now rewrite Hrows, Hrow, Hq.
    + exists t. apply pending_false in Hp as [Hf Hr].
      rewrite Hf, Hr in Hrow. split.
      * destruct s'. simpl in *. unfold betweenLines. congruence.
      * rewrite <- Hrow. now rewrite dropBlank_push_blank.
Qed.

Lemma parseCSV_written_from (lines : list (list Field * Eol))
    (lastLine : list Field) :
  Forall (fun line => Forall writable (fst line)) lines ->
  Forall writable lastLine ->
  forall t,
    dropBlank (lastRow (scan (writeCSV lines lastLine) (betweenLines t)))
    = dropBlank (t ++ map cellsOf (map fst lines ++ [lastLine])).
Proof.
  intros Hlines Hlast.
  induction Hlines as [|[fields e] more Hfields _ IH]; intros t.
  - simpl writeCSV. rewrite <- (app_nil_r (lineText lastLine)).
    rewrite scan_line; [|reflexivity|assumption|discriminate].
    simpl scan. rewrite lastRow_endRow.
    destruct (endRow_afterFields lastLine t) as (t' & -> & Ht').
    exact Ht'.
  - simpl writeCSV. simpl fst in Hfields.
    rewrite scan_line; [|reflexivity|assumption|now destruct e].
    rewrite scan_eol by (now rewrite afterFields_insideQuotes).
    destruct (endRow_afterFields fields t) as (t' & -> & Ht').
    rewrite IH. simpl map.
    rewrite dropBlank_app, Ht', <- dropBlank_app, <- app_assoc.
    reflexivity.
Qed.

(* ================================================================= *)
(** ** Trimmed cells, for every input *)

(** C6.  Every cell of the result has no white space at either end, and
    trimming it again changes nothing.  The cell is the field as it was
    accumulated, trimmed when the field is finalized: a text with no quote,
    comma or line terminator gives its own trim as the only cell, and so
    does a text between quotes, so quoting protects no outer space.  [trim]
    removes white space at the two ends only; what is between is kept as it
    is.

    For every state of the parser: outside quote-mode a comma pushes the
    trim of the current field, whole, on the current row; a line terminator
    pushes it on the row and the row on the table, if there is a field or a
    row; the end of the input does the same; and a code unit of content,
    white space included, is appended to the field untrimmed.  For every
    text of several fields and lines, written plain or between quotes, each
    cell of the result is the trim of the value of its field. *)
Theorem cells_are_trimmed :
  (forall csvText : jsstring,
      Forall (Forall (fun cell => trim cell = cell /\ cleanEdges cell = true))
             (parseCSV csvText))
  /\ (forall field : jsstring,
         Forall (isContent false) field ->
         parseCSV field = if is_empty (trim field) then [] else [[trim field]])
  /\ (forall field : jsstring,
         ~ In QUOTE field ->
         parseCSV (QUOTE :: field ++ [QUOTE])
         = if is_empty (trim field) then [] else [[trim field]])
  /\ (forall field : jsstring,
         exists l r, field = l ++ trim field ++ r
                     /\ forallb is_white l = true
                     /\ forallb is_white r = true)
  /\ parseCSV (lit "  x  , y ") = [[lit "x"; lit "y"]]
  /\ parseCSV (lit " a  b ,c") = [[lit "a  b"; lit "c"]]
  /\ parseCSV ([QUOTE] ++ lit " a " ++ [QUOTE] ++ lit ",c")
     = [[lit "a"; lit "c"]]
  /\ (forall field : jsstring, cleanEdges (trim field) = true)
  /\ (forall (nextChar : option char) (st : ParserState),
         insideQuotes st = false ->
         loopBody COMMA nextChar st
         = ({| rows := rows st;
               currentRow := currentRow st ++ [trim (currentField st)];
               currentField := [];
               insideQuotes := false |}, false))
  /\ (forall (c : char) (nextChar : option char) (st : ParserState),
         insideQuotes st = false ->
         c = LF \/ c = CR ->
         fst (loopBody c nextChar st)
         = if negb (is_empty (currentField st))
              || (0 <? List.length (currentRow st))
           then {| rows := rows st
                           ++ [currentRow st ++ [trim (currentField st)]];
                   currentRow := [];
                   currentField := [];
                   insideQuotes := false |}
           else st)
  /\ (forall csvText : jsstring,
         parseCSV csvText
         = filter (fun row => existsb (fun cell => negb (is_empty cell)) row)
             (if negb (is_empty (currentField (scan csvText initialState)))
                 || (0 <? List.length
                            (currentRow (scan csvText initialState)))
              then rows (scan csvText initialState)
                   ++ [currentRow (scan csvText initialState)
                       ++ [trim (currentField (scan csvText initialState))]]
              else rows (scan csvText initialState)))
  /\ (forall (c : char) (nextChar : option char) (st : ParserState),
         c <> QUOTE ->
         insideQuotes st = true \/ (c <> COMMA /\ c <> LF /\ c <> CR) ->
         loopBody c nextChar st
         = ({| rows := rows st;
               currentRow := currentRow st;
               currentField := currentField st ++ [c];
               insideQuotes := insideQuotes st |}, false))
  /\ (forall (lines : list (list Field * Eol)) (lastLine : list Field),
         Forall (fun line => Forall writable (fst line)) lines ->
         Forall writable lastLine ->
         parseCSV (writeCSV lines lastLine)
         = filter (fun row => existsb (fun cell => negb (is_empty cell)) row)
             (map (map (fun f => trim (fieldValue f)))
                  (map fst lines ++ [lastLine])))
  /\ parseCSV (lit " a  b ,c" ++ [LF] ++ lit " d" ++ [9%N] ++ lit "e , "
               ++ [QUOTE] ++ lit " f  g " ++ [QUOTE] ++ [CR; LF]
               ++ lit " h " ++ [CR])
     = [[lit "a  b"; lit "c"];
        [lit "d" ++ [9%N] ++ lit "e"; lit "f  g"];
        [lit "h"]].
Proof.
  repeat match goal with |- _ /\ _ => split end; try reflexivity.
  - intros csvText.
    eapply Forall_impl; [|apply parseCSV_cells_trimmed].
    intros row Hrow. eapply Forall_impl; [|exact Hrow].
    intros cell Hcell. split; [exact Hcell|now apply trimmed_cleanEdges].
  - exact parseCSV_plain_field.
  - exact parseCSV_quoted_field.
  - exact trim_split.
  - intros field. apply trimmed_cleanEdges. apply trim_idem.
  - intros nextChar st Hq. rewrite loopBody_comma by exact Hq.
    unfold endField. now rewrite Hq.
  - intros c nextChar st Hq Hc.
    assert (E : fst (loopBody c nextChar st) = endRow st).
    { destruct Hc as [->| ->];
        [now rewrite loopBody_lf|now apply loopBody_cr]. }
    rewrite E. unfold endRow, pending. now rewrite Hq.
  - intros c nextChar st Hc Hq. now apply loopBody_content.
  - intros lines lastLine Hlines Hlast.
    exact (parseCSV_written_from lines lastLine Hlines Hlast []).
Qed.

Lemma cells_are_trimmed_witness :
  parseCSV (lit " a  b ") = [[lit "a  b"]]
  /\ parseCSV (QUOTE :: lit " a,b " ++ [QUOTE]) = [[lit "a,b"]]
  /\ loopBody COMMA (Some SPACE)
       {| rows := []; currentRow := [lit "x"]; currentField := lit " a  b ";
          insideQuotes := false |}
     = ({| rows := []; currentRow := [lit "x"; lit "a  b"];
           currentField := []; insideQuotes := false |}, false)
  /\ fst (loopBody LF None
            {| rows := [[lit "w"]]; currentRow := [lit "x"];
               currentField := lit " a  b "; insideQuotes := false |})
     = {| rows := [[lit "w"]; [lit "x"; lit "a  b"]]; currentRow := [];
          currentField := []; insideQuotes := false |}
  /\ loopBody SPACE None
       {| rows := []; currentRow := []; currentField := lit " a";
          insideQuotes := false |}
     = ({| rows := []; currentRow := []; currentField := lit " a ";
           insideQuotes := false |}, false)
  /\ parseCSV (lit " a  b ," ++ [QUOTE] ++ lit " c, d " ++ [QUOTE] ++ [LF]
               ++ lit " e ")
     = [[lit "a  b"; lit "c, d"]; [lit "e"]].
Proof.
  pose proof cells_are_trimmed
    as (_ & Hplain & Hquoted & _ & _ & _ & _ & _ & Hcomma & Heol & _
        & Hcontent & Hwritten & _).
  split; [|split; [|split; [|split; [|split]]]].
  - apply (Hplain (lit " a  b ")).
    repeat constructor; discriminate.
  - apply (Hquoted (lit " a,b ")).
    simpl. intros H. repeat destruct H as [H|H]; discriminate H || exact H.
  - apply Hcomma. reflexivity.
  - apply (Heol LF); [reflexivity|now left].
  - apply Hcontent; [discriminate|].
    right. repeat split; discriminate.
  - apply (Hwritten [([Plain (lit " a  b "); Quoted (lit " c, d ")], EolLF)]
                    [Plain (lit " e ")]).
    + repeat constructor; discriminate.
    + repeat constructor; discriminate.
Defined.

(** X1.  A text written the standard way is read back cell for cell: fields
    separated by commas, each written plain (if it holds no quote, comma or
    line terminator) or between quotes with its quotes doubled, lines ended
    by LF, CR or CR LF in any mix, the last line with no line end.  The
    result is the table of the trimmed values, less its blank rows. *)
Theorem parseCSV_reads_written_csv (lines : list (list Field * Eol))
    (lastLine : list Field) :
  Forall (fun line => Forall writable (fst line)) lines ->
  Forall writable lastLine ->
  parseCSV (writeCSV lines lastLine)
  = dropBlank (map cellsOf (map fst lines ++ [lastLine])).
Proof.
  intros Hlines Hlast. unfold parseCSV.
  exact (parseCSV_written_from lines lastLine Hlines Hlast []).
Qed.

Lemma parseCSV_reads_written_csv_witness :
  parseCSV (lit "a," ++ [QUOTE] ++ lit " b,c" ++ [QUOTE; QUOTE] ++ lit "d"
            ++ [LF] ++ lit "e" ++ [QUOTE] ++ [CR; LF] ++ [CR] ++ lit "x,")
  = [[lit "a"; lit "b,c" ++ [QUOTE] ++ lit "d" ++ [LF] ++ lit "e"];
     [lit "x"; []]].
Proof.
  apply (parseCSV_reads_written_csv
           [([Plain (lit "a");
              Quoted (lit " b,c" ++ [QUOTE] ++ lit "d" ++ [LF] ++ lit "e")],
             EolCRLF);
            ([], EolCR)]
           [Plain (lit "x"); Plain []]).
  - repeat constructor; discriminate.
  - repeat constructor; discriminate.
Defined.

(* ================================================================= *)
(** ** [escapeHTML] *)

Lemma escapeHTML_escapeString (text : jsstring) :
  CsvToWpblock.escapeHTML text = escapeString false text.
Proof.
  unfold CsvToWpblock.escapeHTML, innerHTML. simpl.
  destruct text as [|c text]; [reflexivity|].
  simpl. now rewrite app_nil_r.
Qed.

Lemma escapeUnit_clean (c : char) :
  Forall (fun x => x <> LT /\ x <> GT /\ x <> NBSP) (escapeUnit false c).
Proof.
  unfold escapeUnit.
  destruct (N.eqb_spec c AMP); [repeat constructor; discriminate|].
  destruct (N.eqb_spec c NBSP); [repeat constructor; discriminate|].
  destruct (N.eqb_spec c LT); [repeat constructor; discriminate|].
  destruct (N.eqb_spec c GT); [repeat constructor; discriminate|].
  simpl. repeat constructor; assumption.
Qed.

Lemma escapeHTML_clean (text : jsstring) :
  Forall (fun c => c <> LT /\ c <> GT /\ c <> NBSP)
         (CsvToWpblock.escapeHTML text).
Proof.
  rewrite escapeHTML_escapeString. unfold escapeString.
  induction text as [|c text IH]; simpl; [constructor|].
  apply Forall_app. split; [apply escapeUnit_clean|exact IH].
Qed.

(** X2.  The escaped text holds no less-than sign, no greater-than sign and
    no no-break space: a cell's text cannot open or close a tag in the
    markup it is put in. *)
Theorem escapeHTML_no_angle_bracket (text : jsstring) :
  Forall (fun c => c <> LT /\ c <> GT /\ c <> NBSP)
         (CsvToWpblock.escapeHTML text).
Proof. apply escapeHTML_clean. Qed.

Lemma escapeUnit_not_nil (c : char) : escapeUnit false c <> [].
Proof.
  unfold escapeUnit.
  destruct (c =? AMP)%N; [discriminate|].
  destruct (c =? NBSP)%N; [discriminate|].
  destruct (c =? LT)%N; [discriminate|].
  destruct (c =? GT)%N; discriminate.
Qed.

(** What two code units escape to, each followed by some text, agree only
    if the code units and the texts do. *)
Lemma escapeUnit_prefix (c d : char) (x y : jsstring) :
  escapeUnit false c ++ x = escapeUnit false d ++ y -> c = d /\ x = y.
Proof.
  unfold escapeUnit.
  destruct (N.eqb_spec c AMP) as [->|?];
    [|destruct (N.eqb_spec c NBSP) as [->|?];
      [|destruct (N.eqb_spec c LT) as [->|?];
        [|destruct (N.eqb_spec c GT) as [->|?]]]];
  (destruct (N.eqb_spec d AMP) as [->|?];
    [|destruct (N.eqb_spec d NBSP) as [->|?];
      [|destruct (N.eqb_spec d LT) as [->|?];
        [|destruct (N.eqb_spec d GT) as [->|?]]]]);
  simpl; intros H; try discriminate H;
  injection H; intros; subst; try (split; congruence); try contradiction;
  exfalso; congruence.
Qed.

(** X3.  Escaping loses nothing: two texts with the same escaped form are
    the same text. *)
Theorem escapeHTML_injective (a b : jsstring) :
  CsvToWpblock.escapeHTML a = CsvToWpblock.escapeHTML b -> a = b.
Proof.
  rewrite !escapeHTML_escapeString. unfold escapeString.
  revert b. induction a as [|c a IH]; intros [|d b] H; simpl in H.
  - reflexivity.
  - symmetry in H. apply app_eq_nil in H as [H _].
    now apply escapeUnit_not_nil in H.
  - apply app_eq_nil in H as [H _]. now apply escapeUnit_not_nil in H.
  - apply escapeUnit_prefix in H as [-> H]. f_equal. now apply IH.
Qed.

Lemma escapeHTML_injective_witness :
  lit "a<b" ++ [NBSP] = [97; 60; 98; 160]%N.
Proof.
  apply (escapeHTML_injective (lit "a<b" ++ [NBSP]) [97; 60; 98; 160]%N).
  reflexivity.
Defined.

(** The code units the escaping leaves alone. *)
Lemma escapeUnit_safe (c : char) :
  c <> AMP -> c <> NBSP -> c <> LT -> c <> GT -> escapeUnit false c = [c].
Proof.
  intros H1 H2 H3 H4. unfold escapeUnit.
  destruct (N.eqb_spec c AMP); [contradiction|].
  destruct (N.eqb_spec c NBSP); [contradiction|].
  destruct (N.eqb_spec c LT); [contradiction|].
  destruct (N.eqb_spec c GT); [contradiction|reflexivity].
Qed.

(** X4.  Escaping works code unit by code unit: the escaped form of a
    concatenation is the concatenation of the escaped forms, the four
    special code units become their entities, and a text without them is
    returned as it is. *)
Theorem escapeHTML_pieces :
  (forall a b : jsstring,
      CsvToWpblock.escapeHTML (a ++ b)
      = CsvToWpblock.escapeHTML a ++ CsvToWpblock.escapeHTML b)
  /\ CsvToWpblock.escapeHTML [AMP] = lit "&amp;"
  /\ CsvToWpblock.escapeHTML [LT] = lit "&lt;"
  /\ CsvToWpblock.escapeHTML [GT] = lit "&gt;"
  /\ CsvToWpblock.escapeHTML [NBSP] = lit "&nbsp;"
  /\ (forall text : jsstring,
         Forall (fun c => c <> AMP /\ c <> NBSP /\ c <> LT /\ c <> GT) text ->
         CsvToWpblock.escapeHTML text = text).
Proof.
  split; [|repeat split].
  - intros a b. rewrite !escapeHTML_escapeString.
    apply flat_map_app.
  - intros text H. rewrite escapeHTML_escapeString. unfold escapeString.
    induction H as [|c text (H1 & H2 & H3 & H4) _ IH]; [reflexivity|].
    simpl. now rewrite escapeUnit_safe, IH.
Qed.

Lemma escapeHTML_pieces_witness :
  CsvToWpblock.escapeHTML (lit "a,b c" ++ [QUOTE]) = lit "a,b c" ++ [QUOTE].
Proof.
  apply (proj2 (proj2 (proj2 (proj2 (proj2 escapeHTML_pieces))))).
  repeat constructor; discriminate.
Defined.

(* ================================================================= *)
(** ** [createTableFromData] *)

(** A [forEach] that appends one child per item leaves the children made
    from the items, in order, after those the parent had. *)
Lemma fold_appendChild {A : Type} (make : A -> Node) (items : list A) :
  forall (tag : Tag) (c : option jsstring) (children : list Node),
    fold_left (fun parent x => appendChild (make x) parent) items
              (Element tag c children)
    = Element tag c (children ++ map make items).
Proof.
  induction items as [|x items IH]; intros tag c children; simpl.
  - now rewrite app_nil_r.
  - rewrite IH. now rewrite <- app_assoc.
Qed.

Lemma rowElement_children (cellTag : Tag) (row : Row) :
  rowElement cellTag row = Element TR None (map (cellElement cellTag) row).
Proof.
  unfold rowElement, createElement.
  exact (fold_appendChild (cellElement cellTag) row TR None []).
Qed.

Lemma textContent_cellElement (cellTag : Tag) (cellText : jsstring) :
  textContent (cellElement cellTag cellText) = cellText.
Proof.
  unfold cellElement. simpl. destruct cellText as [|c t]; [reflexivity|].
  simpl. now rewrite app_nil_r.
Qed.

Lemma rowElement_texts (cellTag : Tag) (row : Row) :
  map textContent (childNodes (rowElement cellTag row)) = row.
Proof.
  rewrite rowElement_children. simpl. rewrite map_map.
  rewrite <- (map_id row) at 2. apply map_ext.
  intros c. apply textContent_cellElement.
Qed.

Lemma rowElement_cell_tags (cellTag : Tag) (row : Row) :
  forallb (hasTag cellTag) (childNodes (rowElement cellTag row)) = true.
Proof.
  rewrite rowElement_children. simpl.
  induction row as [|c row IH]; [reflexivity|].
  simpl. rewrite IH. now destruct cellTag.
Qed.

(** The tree [createTableFromData] builds for a table with a first row. *)
Lemma createTableFromData_tree (row0 : Row) (more : Table)
    (options : TableOptions) :
  createTableFromData (row0 :: more) options
  = Some
      (Element TABLE
         (Some match className options with
               | Some c => c
               | None => lit "csv-table"
               end)
         (if match hasHeader options with Some b => b | None => true end
          then [Element THEAD None [rowElement TH row0];
                Element TBODY None (map (rowElement TD) more)]
          else [Element TBODY None (map (rowElement TD) (row0 :: more))])).
Proof.
  unfold createTableFromData.
  destruct (match hasHeader options with Some b => b | None => true end).
  - simpl. f_equal. unfold createElement.
    now rewrite (fold_appendChild (rowElement TD) more TBODY None []).
  - cbn [andb Nat.eqb List.length skipn]. f_equal. unfold createElement.
    now rewrite (fold_appendChild (rowElement TD) (row0 :: more) TBODY None []).
Qed.

Lemma rows_of_rowElements (cellTag : Tag) (t : Table) :
  map (fun tr => map textContent (childNodes tr)) (map (rowElement cellTag) t)
  = t.
Proof.
  rewrite map_map. rewrite <- (map_id t) at 2. apply map_ext.
  intros row. apply rowElement_texts.
Qed.

Lemma cells_of_rowElements (cellTag : Tag) (t : Table) :
  Forall (fun cells => forallb (hasTag cellTag) cells = true)
         (map childNodes (map (rowElement cellTag) t)).
Proof.
  induction t as [|row t IH]; simpl map; constructor; [|exact IH].
  apply rowElement_cell_tags.
Qed.

Lemma createTableFromData_holds_data_aux (data : Table)
    (options : TableOptions) :
  match createTableFromData data options with
  | None => data = []
  | Some table =>
      data <> []
      /\ sectionRows THEAD table
         = (if match hasHeader options with Some b => b | None => true end
            then firstn 1 data else [])
      /\ sectionRows TBODY table
         = (if match hasHeader options with Some b => b | None => true end
            then skipn 1 data else data)
      /\ sectionRows THEAD table ++ sectionRows TBODY table = data
      /\ Forall (fun cells => forallb (hasTag TH) cells = true)
                (sectionCells THEAD table)
      /\ Forall (fun cells => forallb (hasTag TD) cells = true)
                (sectionCells TBODY table)
  end.
Proof.
  destruct data as [|row0 more]; [reflexivity|].
  rewrite createTableFromData_tree.
  split; [discriminate|].
  unfold sectionRows, sectionCells.
  destruct (match hasHeader options with Some b => b | None => true end);
    cbn [childNodes filter hasTag tag_eqb flat_map app firstn skipn];
    rewrite ?app_nil_r, ?rows_of_rowElements;
    cbn [map]; rewrite ?rowElement_texts.
  - repeat split; try reflexivity.
    + constructor; [apply rowElement_cell_tags|constructor].
    + apply cells_of_rowElements.
  - repeat split; try reflexivity.
    + constructor.
    + apply (cells_of_rowElements TD (row0 :: more)).
Qed.

(** X5.  [createTableFromData] returns [null] for the empty table and for
    nothing else.  Otherwise the table element holds the data, cell for
    cell: read back from the tree, the header section has the first row and
    the body the others if the header is asked for (the default), and the
    body has every row if it is not; header cells are [th] elements, body
    cells [td] elements, and an empty cell is kept as an empty element. *)
Theorem createTableFromData_holds_data (data : Table) (options : TableOptions) :
  match createTableFromData data options with
  | None => data = []
  | Some table =>
      data <> []
      /\ sectionRows THEAD table
         = (if match hasHeader options with Some b => b | None => true end
            then firstn 1 data else [])
      /\ sectionRows TBODY table
         = (if match hasHeader options with Some b => b | None => true end
            then skipn 1 data else data)
      /\ sectionRows THEAD table ++ sectionRows TBODY table = data
      /\ Forall (fun cells => forallb (hasTag TH) cells = true)
                (sectionCells THEAD table)
      /\ Forall (fun cells => forallb (hasTag TD) cells = true)
                (sectionCells TBODY table)
  end.
Proof. apply createTableFromData_holds_data_aux. Qed.

(* ================================================================= *)
(** ** [createWPTableMarkup] *)

Lemma appendCells_cellsHTML (open close : jsstring) (row : Row) :
  forall tableHTML : jsstring,
    CsvToWpblock.appendCells open close row tableHTML
    = tableHTML ++ cellsHTML open close row.
Proof.
  unfold CsvToWpblock.appendCells, cellsHTML.
  induction row as [|c row IH]; intros acc; simpl.
  - now rewrite app_nil_r.
  - rewrite IH. now rewrite <- !app_assoc.
Qed.

Lemma fold_rows_bodyRowsHTML (t : Table) :
  forall tableHTML : jsstring,
    fold_left
      (fun tableHTML row =>
         CsvToWpblock.appendCells (lit "<td>") (lit "</td>") row
           (tableHTML ++ lit "<tr>") ++ lit "</tr>")
      t tableHTML
    = tableHTML ++ bodyRowsHTML t.
Proof.
  unfold bodyRowsHTML.
  induction t as [|row t IH]; intros acc.
  - simpl. now rewrite app_nil_r.
  - cbn [fold_left flat_map]. rewrite IH, appendCells_cellsHTML.
    now rewrite <- !app_assoc.
Qed.

(** The string [createWPTableMarkup] builds between the table tags. *)
Lemma tableHTML_sections (header : bool) (row0 : Row) (more : Table) :
  CsvToWpblock.tableHTML (row0 :: more) header
  = sectionsHTML header row0 more.
Proof.
  unfold CsvToWpblock.tableHTML, sectionsHTML.
  destruct header; cbn [andb Nat.ltb Nat.leb List.length nth skipn].
  - rewrite fold_rows_bodyRowsHTML, appendCells_cellsHTML.
    rewrite <- !app_assoc. reflexivity.
  - rewrite fold_rows_bodyRowsHTML. rewrite <- !app_assoc. reflexivity.
Qed.

Lemma outerHTML_cellElement (cellTag : Tag) (cellText : jsstring) :
  outerHTML (cellElement cellTag cellText)
  = lit "<" ++ tagName cellTag ++ lit ">"
    ++ CsvToWpblock.escapeHTML cellText
    ++ lit "</" ++ tagName cellTag ++ lit ">".
Proof. reflexivity. Qed.

Lemma outerHTML_rowElement (cellTag : Tag) (row : Row) :
  outerHTML (rowElement cellTag row)
  = lit "<tr>"
    ++ cellsHTML (lit "<" ++ tagName cellTag ++ lit ">")
                 (lit "</" ++ tagName cellTag ++ lit ">") row
    ++ lit "</tr>".
Proof.
  rewrite rowElement_children.
  change (outerHTML (Element TR None (map (cellElement cellTag) row)))
    with (lit "<tr>"
          ++ List.concat (map outerHTML (map (cellElement cellTag) row))
          ++ lit "</tr>").
  do 2 f_equal. unfold cellsHTML.
  rewrite map_map, flat_map_concat_map. f_equal. apply map_ext.
  intros c. rewrite outerHTML_cellElement. now rewrite <- !app_assoc.
Qed.

Lemma outerHTML_body_rows (t : Table) :
  List.concat (map outerHTML (map (rowElement TD) t)) = bodyRowsHTML t.
Proof.
  unfold bodyRowsHTML. rewrite map_map, flat_map_concat_map. f_equal.
  apply map_ext. intros row. apply outerHTML_rowElement.
Qed.

(** The HTML inside the table element [createTableFromData] builds. *)
Lemma innerHTML_table (options : TableOptions) (row0 : Row) (more : Table)
    (table : Node) :
  createTableFromData (row0 :: more) options = Some table ->
  innerHTML table
  = sectionsHTML match hasHeader options with Some b => b | None => true end
                 row0 more.
Proof.
  rewrite createTableFromData_tree. intros H. injection H as <-.
  unfold sectionsHTML, innerHTML. cbn [childNodes].
  destruct (match hasHeader options with Some b => b | None => true end);
    cbn [map List.concat].
  - change (outerHTML (Element THEAD None [rowElement TH row0]))
      with (lit "<thead>" ++ (outerHTML (rowElement TH row0) ++ [])
            ++ lit "</thead>").
    change (outerHTML (Element TBODY None (map (rowElement TD) more)))
      with (lit "<tbody>"
            ++ List.concat (map outerHTML (map (rowElement TD) more))
            ++ lit "</tbody>").
    rewrite outerHTML_rowElement, outerHTML_body_rows.
    rewrite !app_nil_r, <- !app_assoc. reflexivity.
  - change (outerHTML
              (Element TBODY None
                 (rowElement TD row0 :: map (rowElement TD) more)))
      with (lit "<tbody>"
            ++ List.concat
                 (map outerHTML (map (rowElement TD) (row0 :: more)))
            ++ lit "</tbody>").
    rewrite outerHTML_body_rows.
    rewrite !app_nil_r. reflexivity.
Qed.

(** X6.  The two renderers agree on the table: for the same data and the
    same header choice, the block markup is the wrapper, with its class
    attribute, around the very HTML that the table element built by
    [createTableFromData] has inside ([table.innerHTML]). *)
Theorem markup_wraps_table_html (data : Table) (header : bool)
    (cls : option jsstring) (fixedLayout stripes : option bool)
    (table : Node) :
  createTableFromData data (mkTableOptions (Some header) cls) = Some table ->
  CsvToWpblock.createWPTableMarkup data
    (CsvToWpblock.mkMarkupOptions (Some header) fixedLayout stripes)
  = Some (CsvToWpblock.blockMarkup
            (CsvToWpblock.classAttr
               match fixedLayout with Some b => b | None => true end
               match stripes with Some b => b | None => false end)
            (innerHTML table)).
Proof.
  destruct data as [|row0 more]; [discriminate|].
  intros H. rewrite (innerHTML_table _ _ _ _ H).
  unfold CsvToWpblock.createWPTableMarkup.
  cbn [List.length Nat.eqb CsvToWpblock.hasHeader CsvToWpblock.hasFixedLayout
       CsvToWpblock.hasStripes hasHeader].
  now rewrite tableHTML_sections.
Qed.

Lemma markup_wraps_table_html_witness :
  CsvToWpblock.createWPTableMarkup [[lit "a<b"; []]; [lit "1"; lit "2"]]
    (CsvToWpblock.mkMarkupOptions (Some true) None (Some true))
  = Some (lit "<!-- wp:table -->" ++ [LF]
          ++ lit "<figure class=" ++ [QUOTE] ++ lit "wp-block-table"
          ++ [QUOTE] ++ lit "><table class=" ++ [QUOTE]
          ++ lit "has-fixed-layout has-stripes" ++ [QUOTE] ++ lit ">"
          ++ lit "<thead><tr><th>a&lt;b</th><th></th></tr></thead>"
          ++ lit "<tbody><tr><td>1</td><td>2</td></tr></tbody>"
          ++ lit "</table></figure>" ++ [LF] ++ lit "<!-- /wp:table -->").
Proof.
  apply (markup_wraps_table_html [[lit "a<b"; []]; [lit "1"; lit "2"]] true
           None None (Some true)
           (Element TABLE (Some (lit "csv-table"))
              [Element THEAD None
                 [Element TR None
                    [Element TH None [Text (lit "a<b")]; Element TH None []]];
               Element TBODY None
                 [Element TR None
                    [Element TD None [Text (lit "1")];
                     Element TD None [Text (lit "2")]]]])).
  reflexivity.
Defined.

(** X7.  Called with no options the two renderers do not agree: the table
    element has the first row in its header section, and the block markup is
    the one of the table built without a header, which has no header section
    and other HTML inside. *)
Theorem default_options_differ (data : Table) (table : Node) :
  createTableFromData data (mkTableOptions None None) = Some table ->
  sectionRows THEAD table = firstn 1 data
  /\ exists bodyOnly : Node,
      createTableFromData data (mkTableOptions (Some false) None)
      = Some bodyOnly
      /\ sectionRows THEAD bodyOnly = []
      /\ CsvToWpblock.createWPTableMarkup data
           (CsvToWpblock.mkMarkupOptions None None None)
         = Some (CsvToWpblock.blockMarkup
                   (lit " class=" ++ [QUOTE] ++ lit "has-fixed-layout"
                    ++ [QUOTE])
                   (innerHTML bodyOnly))
      /\ innerHTML table <> innerHTML bodyOnly.
Proof.
  intros H.
  pose proof (createTableFromData_holds_data_aux data
                (mkTableOptions None None)) as Hd.
  rewrite H in Hd. destruct Hd as (Hne & Hhead & _).
  split; [exact Hhead|].
  destruct data as [|row0 more]; [contradiction|].
  destruct (createTableFromData (row0 :: more)
              (mkTableOptions (Some false) None))
    as [bodyOnly|] eqn:Hb;
    [|rewrite createTableFromData_tree in Hb; discriminate].
  exists bodyOnly.
  pose proof (createTableFromData_holds_data_aux (row0 :: more)
                (mkTableOptions (Some false) None)) as Hd.
  rewrite Hb in Hd. destruct Hd as (_ & Hhead' & _).
  split; [reflexivity|]. split; [exact Hhead'|]. split.
  - rewrite (innerHTML_table _ _ _ _ Hb).
    unfold CsvToWpblock.createWPTableMarkup.
    cbn [List.length Nat.eqb CsvToWpblock.hasHeader
         CsvToWpblock.hasFixedLayout CsvToWpblock.hasStripes hasHeader].
    now rewrite tableHTML_sections.
  - rewrite (innerHTML_table _ _ _ _ H), (innerHTML_table _ _ _ _ Hb).
    unfold sectionsHTML. cbn [hasHeader]. simpl. discriminate.
Qed.

Lemma default_options_differ_witness :
  sectionRows THEAD
    (Element TABLE (Some (lit "csv-table"))
       [Element THEAD None [Element TR None [Element TH None [Text (lit "a")]]];
        Element TBODY None []])
  = [[lit "a"]]
  /\ CsvToWpblock.createWPTableMarkup [[lit "a"]]
       (CsvToWpblock.mkMarkupOptions None None None)
     = Some (CsvToWpblock.blockMarkup
               (lit " class=" ++ [QUOTE] ++ lit "has-fixed-layout" ++ [QUOTE])
               (lit "<tbody><tr><td>a</td></tr></tbody>")).
Proof.
  destruct (default_options_differ [[lit "a"]]
              (Element TABLE (Some (lit "csv-table"))
                 [Element THEAD None
                    [Element TR None [Element TH None [Text (lit "a")]]];
                  Element TBODY None []])
              eq_refl) as (Hhead & bodyOnly & Hb & _ & Hm & _).
  split; [exact Hhead|]. injection Hb as <-. exact Hm.
Defined.

(* ================================================================= *)
(** ** Tags in the block markup *)

Lemma countOf_app (b : char) (s t : jsstring) :
  countOf b (s ++ t) = countOf b s + countOf b t.
Proof. apply count_occ_app. Qed.

Lemma countOf_escapeHTML (b : char) (text : jsstring) :
  b = LT \/ b = GT -> countOf b (CsvToWpblock.escapeHTML text) = 0.
Proof.
  intros Hb. apply count_occ_not_In. intros Hin.
  pose proof (escapeHTML_clean text) as H.
  rewrite Forall_forall in H. destruct (H b Hin) as (H1 & H2 & _).
  destruct Hb; contradiction.
Qed.

Lemma countOf_cellsHTML (b : char) (open close : jsstring) (row : Row) :
  b = LT \/ b = GT ->
  countOf b open = 1 -> countOf b close = 1 ->
  countOf b (cellsHTML open close row) = 2 * List.length row.
Proof.
  intros Hb Ho Hc. unfold cellsHTML.
  induction row as [|c row IH]; [reflexivity|].
  cbn [flat_map List.length]. rewrite !countOf_app, IH, Ho, Hc.
  rewrite countOf_escapeHTML by assumption. lia.
Qed.

Lemma cellCount_cons (row : Row) (t : Table) :
  cellCount (row :: t) = List.length row + cellCount t.
Proof. unfold cellCount. simpl. apply length_app. Qed.

Lemma countOf_bodyRowsHTML (b : char) (t : Table) :
  b = LT \/ b = GT ->
  countOf b (bodyRowsHTML t) = 2 * List.length t + 2 * cellCount t.
Proof.
  intros Hb. unfold bodyRowsHTML.
  induction t as [|row t IH]; [reflexivity|].
  cbn [flat_map List.length]. rewrite cellCount_cons, !countOf_app, IH.
  rewrite countOf_cellsHTML;
    [|assumption|destruct Hb; subst; reflexivity
     |destruct Hb; subst; reflexivity].
  assert (E1 : countOf b (lit "<tr>") = 1) by (destruct Hb; now subst).
  assert (E2 : countOf b (lit "</tr>") = 1) by (destruct Hb; now subst).
  rewrite E1, E2. lia.
Qed.

Lemma countOf_sectionsHTML (b : char) (header : bool) (row0 : Row)
    (more : Table) :
  b = LT \/ b = GT ->
  countOf b (sectionsHTML header row0 more)
  = 2 + 2 * List.length (row0 :: more) + 2 * cellCount (row0 :: more)
    + (if header then 2 else 0).
Proof.
  intros Hb. unfold sectionsHTML.
  assert (E1 : countOf b (lit "<thead><tr>") = 2) by (destruct Hb; now subst).
  assert (E2 : countOf b (lit "</tr></thead>") = 2)
    by (destruct Hb; now subst).
  assert (E3 : countOf b (lit "<tbody>") = 1) by (destruct Hb; now subst).
  assert (E4 : countOf b (lit "</tbody>") = 1) by (destruct Hb; now subst).
  assert (E5 : countOf b (lit "<th>") = 1) by (destruct Hb; now subst).
  assert (E6 : countOf b (lit "</th>") = 1) by (destruct Hb; now subst).
  assert (E7 : countOf b [] = 0) by reflexivity.
  destruct header; rewrite !countOf_app, countOf_bodyRowsHTML by assumption;
    rewrite ?(countOf_cellsHTML _ _ _ _ Hb E5 E6), ?E1, ?E2, ?E3, ?E4, ?E7;
    rewrite cellCount_cons; cbn [List.length]; lia.
Qed.

Lemma countOf_classAttr (b : char) (fixedLayout stripes : bool) :
  b = LT \/ b = GT ->
  countOf b (CsvToWpblock.classAttr fixedLayout stripes) = 0.
Proof.
  intros Hb. destruct Hb; subst; destruct fixedLayout, stripes; reflexivity.
Qed.

(** Evaluate the counts of the string literals of the goal. *)
Ltac count_literals :=
  repeat match goal with
         | |- context [countOf ?c (lit ?s)] =>
             let v := eval vm_compute in (countOf c (lit s)) in
             change (countOf c (lit s)) with v
         | |- context [countOf ?c [?x]] =>
             let v := eval vm_compute in (countOf c [x]) in
             change (countOf c [x]) with v
         end.

Lemma countOf_blockMarkup (b : char) (attr html : jsstring) :
  b = LT \/ b = GT ->
  countOf b (CsvToWpblock.blockMarkup attr html)
  = 6 + countOf b attr + countOf b html.
Proof.
  intros Hb. unfold CsvToWpblock.blockMarkup.
  destruct Hb; subst b; rewrite !countOf_app; count_literals; lia.
Qed.

(** X8.  The angle brackets of the block markup are those of its tags and
    of nothing else: their number depends on the number of rows, the number
    of cells and the header choice only, never on the text of a cell or on
    the style flags. *)
Theorem markup_angle_brackets (data : Table)
    (options : CsvToWpblock.MarkupOptions) (markup : jsstring) :
  CsvToWpblock.createWPTableMarkup data options = Some markup ->
  countOf LT markup
  = 8 + 2 * List.length data + 2 * cellCount data
    + (if match CsvToWpblock.hasHeader options with
          | Some b => b
          | None => false
          end then 2 else 0)
  /\ countOf GT markup = countOf LT markup.
Proof.
  unfold CsvToWpblock.createWPTableMarkup.
  destruct data as [|row0 more]; [discriminate|].
  cbn [List.length Nat.eqb]. intros H. injection H as <-.
  rewrite tableHTML_sections.
  rewrite !countOf_blockMarkup, !countOf_classAttr, !countOf_sectionsHTML
    by (now left) || (now right).
  cbn [List.length]. lia.
Qed.

Lemma markup_angle_brackets_witness :
  countOf LT
    (CsvToWpblock.blockMarkup
       (lit " class=" ++ [QUOTE] ++ lit "has-fixed-layout" ++ [QUOTE])
       (lit "<tbody><tr><td>a&lt;b</td><td>&gt;</td></tr></tbody>"))
  = 14.
Proof.
  apply (markup_angle_brackets [[lit "a<b"; lit ">"]]
           (CsvToWpblock.mkMarkupOptions None None None)).
  reflexivity.
Defined.

(* ================================================================= *)
(** ** The parser invents nothing *)

Lemma trim_incl (s : jsstring) : incl (trim s) s.
Proof.
  destruct (trim_split s) as (l & r & Hs & _).
  intros c Hc. rewrite Hs. apply in_or_app. right.
  apply in_or_app. now left.
Qed.

Lemma concat_push (A : Type) (l : list (list A)) (x : list A) :
  List.concat (l ++ [x]) = List.concat l ++ x.
Proof. rewrite concat_app. simpl. now rewrite app_nil_r. Qed.

(** What the parser holds after an iteration was held before it or is the
    code unit just read. *)
Lemma held_body (c : char) (nextChar : option char) (st : ParserState) :
  incl (held (fst (loopBody c nextChar st))) (c :: held st).
Proof.
  intros x. unfold held.
  assert (Ht : In x (trim (currentField st)) -> In x (currentField st))
    by apply trim_incl.
  destruct (loopBody_cases c nextChar st) as [Ec _ _|_ _|_ _|skip _ _ _|_ _];
    try subst c; unfold endRow; try destruct (pending st);
    cbn [fst rows currentRow currentField append toggle endField In];
    rewrite ?concat_app; cbn [List.concat]; rewrite ?concat_app;
    cbn [List.concat]; rewrite ?in_app_iff; cbn [In];
    intuition auto.
Qed.

Lemma held_scan (csvText : jsstring) :
  incl (held (scan csvText initialState)) csvText.
Proof.
  apply (scan_preserves (fun s => incl s csvText)
                        (fun st => incl (held st) csvText)).
  - intros c rest H x Hx. apply H. now right.
  - intros c rest st Hq Hp x Hx. apply held_body in Hx as [<-|Hx].
    + apply Hq. now left.
    + now apply Hp.
  - apply incl_refl.
  - intros x [].
Qed.

(** X9.  Every code unit of every cell of the result occurs in the input:
    the parser copies and drops code units and makes up none. *)
Theorem parseCSV_invents_nothing (csvText : jsstring) :
  Forall (Forall (Forall (fun c => In c csvText))) (parseCSV csvText).
Proof.
  pose proof (held_scan csvText) as H. unfold held in H.
  set (st := scan csvText initialState) in *.
  apply Forall_forall. intros row Hrow.
  apply Forall_forall. intros cell Hcell.
  apply Forall_forall. intros c Hc.
  unfold parseCSV in Hrow. fold st in Hrow.
  apply dropBlank_spec in Hrow as [Hrow _].
  apply H. rewrite !in_app_iff.
  unfold lastRow in Hrow. destruct (pending st).
  - apply in_app_or in Hrow as [Hrow|[<-|[]]].
    + left. apply in_concat. exists cell. split; [|exact Hc].
      apply in_concat. now exists row.
    + apply in_app_or in Hcell as [Hcell|[<-|[]]].
      * right. left. apply in_concat. now exists cell.
      * right. right. now apply trim_incl.
  - left. apply in_concat. exists cell. split; [|exact Hc].
    apply in_concat. now exists row.
Qed.

(* ================================================================= *)
(** ** No more rows and cells than separators allow *)

Lemma countOf_cons_le (b c : char) (s : jsstring) :
  countOf b s <= countOf b (c :: s).
Proof.
  unfold countOf. simpl. destruct (N.eq_dec c b); lia.
Qed.

Lemma countOf_cons_same (b : char) (s : jsstring) :
  countOf b (b :: s) = S (countOf b s).
Proof.
  unfold countOf. simpl. destruct (N.eq_dec b b); [reflexivity|contradiction].
Qed.

Lemma lineBreaks_cons_le (c : char) (s : jsstring) :
  lineBreaks s <= lineBreaks (c :: s).
Proof.
  unfold lineBreaks.
  pose proof (countOf_cons_le LF c s). pose proof (countOf_cons_le CR c s).
  lia.
Qed.

Lemma lineBreaks_cons_break (c : char) (s : jsstring) :
  c = LF \/ c = CR -> S (lineBreaks s) <= lineBreaks (c :: s).
Proof.
  unfold lineBreaks. intros [->| ->].
  - rewrite countOf_cons_same. pose proof (countOf_cons_le CR LF s). lia.
  - rewrite countOf_cons_same. pose proof (countOf_cons_le LF CR s). lia.
Qed.

Lemma cellCount_push (t : Table) (row : Row) :
  cellCount (t ++ [row]) = cellCount t + List.length row.
Proof. unfold cellCount. now rewrite concat_push, length_app. Qed.

Lemma endRow_bounds (st : ParserState) :
  List.length (rows (endRow st)) <= S (List.length (rows st))
  /\ cellsDone (endRow st) <= S (cellsDone st).
Proof.
  unfold endRow, cellsDone. destruct (pending st); simpl; [|lia].
  rewrite cellCount_push, !length_app. simpl. lia.
Qed.

(** The loop pushes at most one row per line terminator read, and finishes
    at most one cell per comma or line terminator read. *)
Lemma scan_bounds (s : jsstring) :
  forall st,
    List.length (rows (scan s st)) <= List.length (rows st) + lineBreaks s
    /\ cellsDone (scan s st)
       <= cellsDone st + countOf COMMA s + lineBreaks s.
Proof.
  assert (H : forall n s, List.length s <= n -> forall st,
               List.length (rows (scan s st))
               <= List.length (rows st) + lineBreaks s
               /\ cellsDone (scan s st)
                  <= cellsDone st + countOf COMMA s + lineBreaks s).
  { induction n as [|n IH]; intros [|c rest] Hlen st;
      simpl in Hlen; try (simpl; lia).
    rewrite scan_cons.
    pose proof (lineBreaks_cons_le c rest) as Hb.
    pose proof (countOf_cons_le COMMA c rest) as Hc.
    destruct (loopBody_cases c (hd_error rest) st)
      as [Ec Hq Hn|Ec Hq|Ec Hq|skip Ec Hq Hs|Ec Hq]; cbn [fst snd].
    - destruct rest as [|a r]; [discriminate|]. cbn [List.tl].
      destruct (IH r ltac:(simpl in *; lia) (append QUOTE st)) as [H1 H2].
      pose proof (lineBreaks_cons_le a r).
      pose proof (countOf_cons_le COMMA a r).
      change (rows (append QUOTE st)) with (rows st) in H1.
      change (cellsDone (append QUOTE st)) with (cellsDone st) in H2. lia.
    - destruct (IH rest ltac:(lia) (toggle st)) as [H1 H2].
      change (rows (toggle st)) with (rows st) in H1.
      change (cellsDone (toggle st)) with (cellsDone st) in H2. lia.
    - destruct (IH rest ltac:(lia) (endField st)) as [H1 H2].
      change (rows (endField st)) with (rows st) in H1.
      assert (E : cellsDone (endField st) = S (cellsDone st)).
      { unfold cellsDone. simpl. rewrite length_app. simpl. lia. }
      subst c. rewrite countOf_cons_same. lia.
    - pose proof (lineBreaks_cons_break c rest Ec) as Hbreak.
      destruct (endRow_bounds st) as [B1 B2].
      destruct skip.
      + destruct rest as [|a r]; [destruct Hs as [Hs _]; now destruct Hs|].
        cbn [List.tl].
        destruct (IH r ltac:(simpl in *; lia) (endRow st)) as [H1 H2].
        pose proof (lineBreaks_cons_le a r).
        pose proof (countOf_cons_le COMMA a r). lia.
      + destruct (IH rest ltac:(lia) (endRow st)) as [H1 H2]. lia.
    - destruct (IH rest ltac:(lia) (append c st)) as [H1 H2].
      change (rows (append c st)) with (rows st) in H1.
      change (cellsDone (append c st)) with (cellsDone st) in H2. lia. }
  eauto.
Qed.

Lemma cellCount_dropBlank (t : Table) : cellCount (dropBlank t) <= cellCount t.
Proof.
  unfold dropBlank. induction t as [|row t IH]; [reflexivity|].
  simpl. destruct (hasContent row); rewrite ?cellCount_cons; lia.
Qed.

(** X10.  The result has at most one row more than the input has line
    feeds and carriage returns, and at most one cell more than it has
    commas, line feeds and carriage returns. *)
Theorem parseCSV_size_bounds (csvText : jsstring) :
  List.length (parseCSV csvText) <= S (lineBreaks csvText)
  /\ cellCount (parseCSV csvText)
     <= S (countOf COMMA csvText + lineBreaks csvText).
Proof.
  destruct (scan_bounds csvText initialState) as [H1 H2].
  unfold parseCSV. set (st := scan csvText initialState) in *.
  pose proof (filter_length_le hasContent (lastRow st)) as Hf.
  pose proof (cellCount_dropBlank (lastRow st)) as Hc.
  fold (dropBlank (lastRow st)) in Hf.
  rewrite lastRow_endRow in *.
  destruct (endRow_bounds st) as [B1 B2].
  assert (B3 : cellCount (rows (endRow st)) <= cellsDone (endRow st))
    by (unfold cellsDone; lia).
  change (cellsDone initialState) with 0 in H2.
  change (List.length (rows initialState)) with 0 in H1.
  lia.
Qed.
